(** * Aesthetic charge field: a shallow embedding of [aesthetic_charge.py]

    The module [aesthetic_charge.py] exposes
    [compute_aesthetic_charge(image_path, kernel_size, weights)].  It loads an
    image with OpenCV, converts it to CIELAB with scikit-image, and returns
    the weighted sum of three local-contrast maps, a curvature map and a
    global histogram entropy, together with the RGB image.

    Modelling conventions.

    - A 2-D numpy array is a row-major list of rows.
    - An 8-bit channel value is an integer of [Z]; the float64 arrays are
      arrays of real numbers, i.e. binary64 arithmetic is idealised by exact
      arithmetic.  The filters of OpenCV accumulate their products in
      binary64, so a filtered value of the program differs from the one of
      this model by the rounding of that sum (a few units in the last
      place for the kernels used here): an equation between filtered
      values is one of the exact model and is to be read of the program up
      to that rounding.
    - [cv2.calcHist] returns a float32 array, so the additive floor
      [hist + 1e-9] is a binary32 addition.  That rounding is kept (see
      [round_float32]), because it is what makes the floor vanish next to
      [1.0]; the other operations on the histogram are taken exact.
    - Python exceptions are values: a call returns [inl exception] or
      [inr value].
    - The file system read by [cv2.imread] is an explicit argument [disk].
    - The effects of a call are modelled a second time, as a program of a
      state monad over a [world] made of the files and of the log of the
      I/O performed ([compute_aesthetic_charge_py]); that program is shown to
      run as the function [compute_aesthetic_charge] of the files.
    - [skimage.color.rgb2lab] works pixel by pixel; theorems are stated for
      an arbitrary per-pixel conversion [rgb2lab_px]. *)

From Stdlib Require Import String Reals Lra Lia ZArith Bool Arith Psatz List.
From Stdlib Require Import Permutation DecimalString.
Import ListNotations.
Open Scope string_scope.
Open Scope list_scope.
Open Scope R_scope.

(** ** Python exceptions and the result of a call *)

Record exception : Type := Raise { exc_class : string; exc_msg : string }.

Definition result (A : Type) : Type := (exception + A)%type.

Definition ret {A : Type} (x : A) : result A := inr x.

Definition raise {A : Type} (cls msg : string) : result A :=
  inl (Raise cls msg).

Definition bind {A B : Type} (c : result A) (k : A -> result B) : result B :=
  match c with
  | inl e => inl e
  | inr x => k x
  end.

Notation "x <- c ;; k" := (bind c (fun x => k))
  (at level 61, c at next level, right associativity).

Definition cv2_error : string := "cv2.error"%string.
Definition ValueError : string := "ValueError"%string.

(** ** numpy arrays *)

Definition ndarray (A : Type) : Type := list (list A).

Definition rows {A : Type} (x : ndarray A) : nat := length x.

Definition cols {A : Type} (x : ndarray A) : nat :=
  match x with
  | [] => O
  | r :: _ => length r
  end.

(** [x.shape[:2]] *)
Definition shape {A : Type} (x : ndarray A) : nat * nat := (rows x, cols x).

(** [x] has [h] rows of [w] entries each. *)
Definition has_shape {A : Type} (h w : nat) (x : ndarray A) : Prop :=
  length x = h /\ Forall (fun r => length r = w) x.

(** [x[i, j]]; [d] is returned out of range, which the code never reads. *)
Definition item {A : Type} (d : A) (x : ndarray A) (i j : nat) : A :=
  nth j (nth i x []) d.

Definition tabulate {A : Type} (h w : nat) (f : nat -> nat -> A) : ndarray A :=
  map (fun i => map (fun j => f i j) (seq 0 w)) (seq 0 h).

Definition amap {A B : Type} (f : A -> B) (x : ndarray A) : ndarray B :=
  map (map f) x.

Fixpoint zip_with {A B C : Type} (f : A -> B -> C) (l : list A) (m : list B)
  : list C :=
  match l, m with
  | a :: l', b :: m' => f a b :: zip_with f l' m'
  | _, _ => []
  end.

(** Element-wise binary operation on two arrays of the same shape. *)
Definition amap2 {A B C : Type} (f : A -> B -> C)
  (x : ndarray A) (y : ndarray B) : ndarray C :=
  zip_with (zip_with f) x y.

Definition np_sub (x y : ndarray R) : ndarray R := amap2 Rminus x y.
Definition np_add (x y : ndarray R) : ndarray R := amap2 Rplus x y.
Definition np_abs (x : ndarray R) : ndarray R := amap Rabs x.
Definition np_scale (w : R) (x : ndarray R) : ndarray R := amap (Rmult w) x.
Definition np_div (x : ndarray R) (d : R) : ndarray R :=
  amap (fun v => v / d) x.

(** [np.full_like(x, v)] *)
Definition np_full_like {A : Type} (x : ndarray A) (v : R) : ndarray R :=
  amap (fun _ => v) x.

(** [np.ones((k, k))]: numpy refuses a negative dimension. *)
Definition np_ones (k : Z) : result (ndarray R) :=
  if (k <? 0)%Z
  then raise ValueError "negative dimensions are not allowed"
  else ret (tabulate (Z.to_nat k) (Z.to_nat k) (fun _ _ => 1)).

(** [np.sum] of a flat array *)
Definition np_sum (l : list R) : R := fold_right Rplus 0 l.

(** Sum of [f 0 .. f (n-1)] *)
Definition sum_upto (n : nat) (f : nat -> R) : R := np_sum (map f (seq 0 n)).

(** ** Pixels and images *)

Definition pixel : Type := (Z * Z * Z)%type.
Definition lab_pixel : Type := (R * R * R)%type.

Definition chan0 {A : Type} (p : A * A * A) : A := fst (fst p).
Definition chan1 {A : Type} (p : A * A * A) : A := snd (fst p).
Definition chan2 {A : Type} (p : A * A * A) : A := snd p.

Definition uint8 (v : Z) : Prop := (0 <= v <= 255)%Z.

Definition uint8_pixel (p : pixel) : Prop :=
  uint8 (chan0 p) /\ uint8 (chan1 p) /\ uint8 (chan2 p).

(** A decoded image: at least one row and one column, every row of the same
    length, 8-bit channels. *)
Definition valid_image (img : ndarray pixel) : Prop :=
  (0 < rows img)%nat /\ (0 < cols img)%nat /\
  Forall (fun r => length r = cols img) img /\
  Forall (Forall uint8_pixel) img.

(** All pixels equal to [p]. *)
Definition flat_image (p : pixel) (img : ndarray pixel) : Prop :=
  Forall (Forall (fun x => x = p)) img.

(** What [cv2.imread] finds at each path: a decoded BGR image, or nothing
    when the file is missing or cannot be decoded. *)
Definition filesystem : Type := string -> option (ndarray pixel).

Definition imread (disk : filesystem) (image_path : string)
  : option (ndarray pixel) := disk image_path.

(** ** OpenCV colour conversions *)

Definition is_empty {A : Type} (x : ndarray A) : bool :=
  (Nat.eqb (rows x) 0 || Nat.eqb (cols x) 0)%bool.

Definition swap_rb (p : pixel) : pixel := (chan2 p, chan1 p, chan0 p).

(** 8-bit BGR to gray, OpenCV's fixed-point form of
    [0.299 R + 0.587 G + 0.114 B]. *)
Definition gray_of_bgr (p : pixel) : Z :=
  Z.shiftr (chan0 p * 3735 + chan1 p * 19235 + chan2 p * 9798 + 16384) 15.

(** The assertion text of the [cv2.error] raised by [cvtColor]; the prefix
    with the library version and source location is left out. *)
Definition cvtColor_assert : string :=
  "(-215:Assertion failed) !_src.empty() in function 'cvtColor'"%string.

(** [cv2.cvtColor(src, code)] raises on [None] and on an empty array. *)
Definition cvtColor {A : Type} (f : pixel -> A) (src : option (ndarray pixel))
  : result (ndarray A) :=
  match src with
  | None => raise cv2_error cvtColor_assert
  | Some img =>
      if is_empty img then raise cv2_error cvtColor_assert
      else ret (amap f img)
  end.

Definition COLOR_BGR2RGB : pixel -> pixel := swap_rb.
Definition COLOR_BGR2GRAY : pixel -> Z := gray_of_bgr.

(** ** OpenCV border extrapolation and linear filters *)

Inductive BorderType : Type :=
| BORDER_REPLICATE
| BORDER_REFLECT
| BORDER_REFLECT_101.

Definition BORDER_DEFAULT : BorderType := BORDER_REFLECT_101.

(** [cv::borderInterpolate]: the source index read for position [p] of an
    axis of length [len].
    REPLICATE   aaaaaa|abcdefgh|hhhhhhh
    REFLECT     fedcba|abcdefgh|hgfedcb
    REFLECT_101 gfedcb|abcdefgh|gfedcba *)
Definition borderInterpolate (p : Z) (len : nat) (bt : BorderType) : nat :=
  let n := Z.of_nat len in
  if ((0 <=? p) && (p <? n))%Z%bool then Z.to_nat p
  else
    match bt with
    | BORDER_REPLICATE => if (p <? 0)%Z then O else (len - 1)%nat
    | BORDER_REFLECT =>
        if Nat.eqb len 1 then O
        else
          let m := (2 * n)%Z in
          let r := (p mod m)%Z in
          Z.to_nat (if (r <? n)%Z then r else m - 1 - r)%Z
    | BORDER_REFLECT_101 =>
        if Nat.eqb len 1 then O
        else
          let m := (2 * (n - 1))%Z in
          let r := (p mod m)%Z in
          Z.to_nat (if (r <? n)%Z then r else m - r)%Z
    end.

(** The neighbour at offset [(di, dj)] of pixel [(i, j)]. *)
Definition neighbour (bt : BorderType) (src : ndarray R) (i j : nat)
  (di dj : Z) : R :=
  item 0 src
    (borderInterpolate (Z.of_nat i + di) (rows src) bt)
    (borderInterpolate (Z.of_nat j + dj) (cols src) bt).

(** The assertion text of the [cv2.error] raised by [filter2D] on an empty
    kernel, same convention. *)
Definition filter2D_assert : string :=
  "(-215:Assertion failed) !_kernel.empty() in function 'filter2D'"%string.

(** [cv2.filter2D(src, -1, kernel, borderType=bt)]: correlation with the
    kernel anchored at its centre [(kw / 2, kh / 2)]; an empty kernel is
    refused.  The sum of products is the exact one; OpenCV rounds every
    product and every partial sum to binary64, so its value is this one up
    to that rounding only. *)
Definition correlate (bt : BorderType) (src kernel : ndarray R) : ndarray R :=
  let kh := rows kernel in
  let kw := cols kernel in
  tabulate (rows src) (cols src) (fun i j =>
    sum_upto kh (fun u =>
      sum_upto kw (fun v =>
        item 0 kernel u v *
        neighbour bt src i j
          (Z.of_nat u - Z.of_nat (kh / 2))
          (Z.of_nat v - Z.of_nat (kw / 2))))).

Definition filter2D_border (bt : BorderType) (src kernel : ndarray R)
  : result (ndarray R) :=
  if is_empty kernel then raise cv2_error filter2D_assert
  else ret (correlate bt src kernel).

(** [cv2.filter2D(src, -1, kernel)] *)
Definition filter2D (src kernel : ndarray R) : result (ndarray R) :=
  filter2D_border BORDER_DEFAULT src kernel.

(** The aperture-1 kernel of [cv2.Laplacian]. *)
Definition laplacian_kernel : ndarray R :=
  [[0; 1; 0]; [1; -4; 1]; [0; 1; 0]].

(** [cv2.Laplacian(src, cv2.CV_64F)]: default [ksize = 1], scale 1, default
    border. *)
Definition Laplacian (src : ndarray R) : result (ndarray R) :=
  filter2D_border BORDER_DEFAULT src laplacian_kernel.

(** ** Histogram *)

Definition histSize : nat := 256.

(** [cv2.calcHist([gray], [0], None, [256], [0, 256])]: bin [v] counts the
    pixels of value [v]. *)
Definition calcHist (gray : ndarray Z) : list nat :=
  map (fun v => count_occ Z.eq_dec (concat gray) (Z.of_nat v))
      (seq 0 histSize).

(** ** binary32 rounding *)

(** [floor (log2 x)] for [0 < x] *)
Definition mag2 (x : R) : Z := Zfloor (ln x / ln 2).

(** Nearest integer, ties to even. *)
Definition rne (t : R) : Z :=
  let f := Zfloor t in
  if Rlt_dec (t - IZR f) (1 / 2) then f
  else if Rlt_dec (1 / 2) (t - IZR f) then (f + 1)%Z
  else if Z.even f then f else (f + 1)%Z.

(** Round a positive real to 24 significant bits. *)
Definition round_pos (x : R) : R :=
  let e := (mag2 x - 23)%Z in
  IZR (rne (x * powerRZ 2 (- e))) * powerRZ 2 e.

(** Round to nearest binary32 (exponent range not bounded: the values
    rounded here lie between 1e-9 and 1 + 1e-9). *)
Definition round_float32 (x : R) : R :=
  if Rlt_dec 0 x then round_pos x
  else if Rlt_dec x 0 then - round_pos (- x)
  else 0.

Definition fadd32 (x y : R) : R := round_float32 (x + y).

(** The Python float [1e-9] cast to float32. *)
Definition floor32 : R := round_float32 (1 / 1000000000).

Definition log2 (x : R) : R := ln x / ln 2.

(** ** Entropy of the gray histogram (lines 43-46) *)

(** One summand of [hist * np.log2(hist + 1e-9)]. *)
Definition plogp (p : R) : R := p * log2 (fadd32 p floor32).

Definition entropy_of_hist (counts : list nat) : R :=
  let hist := map INR counts in
  let total := np_sum hist in
  let hist := map (fun h => h / total) hist in
  - np_sum (map plogp hist).

(** Number of occupied bins *)
Definition occupied (counts : list nat) : nat :=
  length (filter (fun c => negb (Nat.eqb c 0)) counts).

(** ** The five weights *)

(** A length in decimal, as Python prints it. *)
Definition decimal (n : nat) : string :=
  NilZero.string_of_uint (Nat.to_uint n).

(** The messages of CPython 3.11 for a failed unpacking into five names:
    too few values are counted in the message, too many are not. *)
Definition not_enough_values (got : nat) : string :=
  String.append "not enough values to unpack (expected 5, got "
    (String.append (decimal got) ")").

Definition too_many_values : string :=
  "too many values to unpack (expected 5)".

(** [w1, w2, w3, w4, w5 = weights] (line 50) *)
Definition unpack5 (weights : list R) : result (R * R * R * R * R) :=
  match weights with
  | [w1; w2; w3; w4; w5] => ret (w1, w2, w3, w4, w5)
  | _ =>
      if (length weights <? 5)%nat
      then raise ValueError (not_enough_values (length weights))
      else raise ValueError too_many_values
  end.

(** ** compute_aesthetic_charge *)

Section Charge.

(** [skimage.color.rgb2lab] on one RGB pixel. *)
Variable rgb2lab_px : pixel -> lab_pixel.

Definition rgb2lab (rgb : ndarray pixel) : ndarray lab_pixel :=
  amap rgb2lab_px rgb.

Definition compute_aesthetic_charge (disk : filesystem)
  (image_path : string) (kernel_size : Z) (weights : list R)
  : result (ndarray R * ndarray pixel) :=
  let bgr := imread disk image_path in
  rgb <- cvtColor COLOR_BGR2RGB bgr ;;
  let lab := rgb2lab rgb in
  let L := amap chan0 lab in
  let a := amap chan1 lab in
  let b := amap chan2 lab in
  ones <- np_ones kernel_size ;;
  let kernel := np_div ones (IZR (kernel_size ^ 2)) in
  L_mean <- filter2D L kernel ;;
  a_mean <- filter2D a kernel ;;
  b_mean <- filter2D b kernel ;;
  let L_diff := np_abs (np_sub L L_mean) in
  let a_diff := np_abs (np_sub a a_mean) in
  let b_diff := np_abs (np_sub b b_mean) in
  L_lap <- Laplacian L ;;
  let L_lap_abs := np_abs L_lap in
  gray <- cvtColor COLOR_BGR2GRAY bgr ;;
  let entropy_val := entropy_of_hist (calcHist gray) in
  let entropy := np_full_like L entropy_val in
  ws <- unpack5 weights ;;
  let '(w1, w2, w3, w4, w5) := ws in
  let q :=
    np_add (np_add (np_add (np_add (np_scale w1 L_diff)
                                   (np_scale w2 a_diff))
                           (np_scale w3 b_diff))
                   (np_scale w4 L_lap_abs))
           (np_scale w5 entropy) in
  ret (q, rgb).

(** *** The quantities the specification names, per pixel *)

Definition lab_of (bgr : ndarray pixel) : ndarray lab_pixel :=
  rgb2lab (amap COLOR_BGR2RGB bgr).

Definition L_of (bgr : ndarray pixel) : ndarray R := amap chan0 (lab_of bgr).
Definition a_of (bgr : ndarray pixel) : ndarray R := amap chan1 (lab_of bgr).
Definition b_of (bgr : ndarray pixel) : ndarray R := amap chan2 (lab_of bgr).

Definition entropy_const (bgr : ndarray pixel) : R :=
  entropy_of_hist (calcHist (amap COLOR_BGR2GRAY bgr)).

End Charge.

(** Average of the [k] x [k] window around [(i, j)], the window starting
    [k / 2] before the pixel, read through reflect-101 borders. *)
Definition local_mean (k : nat) (x : ndarray R) (i j : nat) : R :=
  sum_upto k (fun u =>
    sum_upto k (fun v =>
      neighbour BORDER_REFLECT_101 x i j
        (Z.of_nat u - Z.of_nat (k / 2))
        (Z.of_nat v - Z.of_nat (k / 2))))
  / INR (k * k).

(** The 4-neighbour Laplacian stencil at [(i, j)], reflect-101 borders. *)
Definition laplacian4 (x : ndarray R) (i j : nat) : R :=
  let nb := neighbour BORDER_REFLECT_101 x i j in
  nb (-1)%Z 0%Z + nb 0%Z (-1)%Z + nb 0%Z 1%Z + nb 1%Z 0%Z
  - 4 * nb 0%Z 0%Z.

(** The contrast and curvature contributions at pixel [(i, j)]. *)
Definition contrast (k : Z) (x : ndarray R) (i j : nat) : R :=
  Rabs (item 0 x i j - local_mean (Z.to_nat k) x i j).

Definition curvature (x : ndarray R) (i j : nat) : R :=
  Rabs (laplacian4 x i j).

(** ** A concrete conversion and sample inputs *)

(** [skimage.color.rgb2lab] on one pixel: sRGB, D65 white point, 2 degree
    observer. *)
Definition srgb_linear (c : R) : R :=
  if Rlt_dec 0.04045 c then Rpower ((c + 0.055) / 1.055) 2.4
  else c / 12.92.

Definition lab_f (t : R) : R :=
  if Rlt_dec 0.008856 t then Rpower t (1 / 3)
  else 7.787 * t + 16 / 116.

Definition rgb2lab_D65 (p : pixel) : lab_pixel :=
  let r := srgb_linear (IZR (chan0 p) / 255) in
  let g := srgb_linear (IZR (chan1 p) / 255) in
  let b := srgb_linear (IZR (chan2 p) / 255) in
  let x := 0.412453 * r + 0.357580 * g + 0.180423 * b in
  let y := 0.212671 * r + 0.715160 * g + 0.072169 * b in
  let z := 0.019334 * r + 0.119193 * g + 0.950227 * b in
  let fx := lab_f (x / 0.95047) in
  let fy := lab_f (y / 1) in
  let fz := lab_f (z / 1.08883) in
  (116 * fy - 16, 500 * (fx - fy), 200 * (fy - fz)).

Definition gray128 : pixel := (128, 128, 128)%Z.
Definition black : pixel := (0, 0, 0)%Z.
Definition white : pixel := (255, 255, 255)%Z.

(** A 4 x 4 flat gray image, a 2 x 2 checkerboard and a single gray pixel. *)
Definition flat4x4 : ndarray pixel := repeat (repeat gray128 4) 4.
Definition checker2x2 : ndarray pixel := [[black; white]; [white; black]].
Definition flat1x1 : ndarray pixel := [[gray128]].

(** A single row of three pixels and a 2 x 2 real-valued channel. *)
Definition row3 : ndarray pixel := [[black; gray128; white]].

(** A disk holding one image at [image.png] and nothing else. *)
Definition disk_with (img : ndarray pixel) : filesystem :=
  fun path => if String.eqb path "image.png" then Some img else None.

Definition default_weights : list R := [1; 1; 1; 1 / 2; 3 / 10].

(** ** Further operations used to state properties *)

(** The image mirrored left to right, [x[:, ::-1]]. *)
Definition flip_h {A : Type} (x : ndarray A) : ndarray A := map (@rev A) x.


(** What [cv2.imread] may return on this disk: a valid image or nothing. *)
Definition decoded_disk (disk : filesystem) : Prop :=
  forall (path : string) (img : ndarray pixel),
    disk path = Some img -> valid_image img.

(** ** The two functions as effectful programs *)

(** A [matplotlib.pyplot] call with its arguments. *)
Inductive pyplot_call : Type :=
| plt_figure (figsize : Z * Z)
| plt_subplot (nrows ncols index : Z)
| plt_imshow (img : ndarray pixel)
| plt_imshow_cmap (img : ndarray R) (cmap : string)
| plt_title (label : string)
| plt_axis (arg : string)
| plt_tight_layout
| plt_show.

(** What a call does to the outside: it reads a file or drives the display. *)
Inductive io_event : Type :=
| ImreadEvent (path : string)
| PyplotEvent (call : pyplot_call).

(** The state a call runs in: the files on disk and the I/O performed so
    far, oldest first. *)
Record world : Type := World { files : filesystem; io_log : list io_event }.

(** A Python computation: it may change the world and returns or raises. *)
Definition py (A : Type) : Type := world -> world * result A.

Definition py_ret {A : Type} (x : A) : py A := fun w => (w, ret x).

Definition py_bind {A B : Type} (c : py A) (k : A -> py B) : py B :=
  fun w =>
    match c w with
    | (w', inl e) => (w', inl e)
    | (w', inr x) => k x w'
    end.

Notation "x <~ c ;; k" := (py_bind c (fun x => k))
  (at level 61, c at next level, right associativity).

(** A library call that is a function of its arguments: the array
    operations of numpy, OpenCV and scikit-image. *)
Definition lift {A : Type} (r : result A) : py A := fun w => (w, r).

Definition perform (ev : io_event) : py unit :=
  fun w => (World (files w) (io_log w ++ [ev]), ret tt).

(** [cv2.imread(path)]: one read of the disk.  A missing or undecodable
    file gives [None], not an exception. *)
Definition cv2_imread (path : string) : py (option (ndarray pixel)) :=
  fun w =>
    (World (files w) (io_log w ++ [ImreadEvent path]),
     ret (imread (files w) path)).

Definition plt (call : pyplot_call) : py unit := perform (PyplotEvent call).

Section ChargeEffects.

Variable rgb2lab_px : pixel -> lab_pixel.

(** [compute_aesthetic_charge] statement by statement (lines 19-59). *)
Definition compute_aesthetic_charge_py (image_path : string)
  (kernel_size : Z) (weights : list R) : py (ndarray R * ndarray pixel) :=
  bgr <~ cv2_imread image_path ;;
  rgb <~ lift (cvtColor COLOR_BGR2RGB bgr) ;;
  let lab := rgb2lab rgb2lab_px rgb in
  let L := amap chan0 lab in
  let a := amap chan1 lab in
  let b := amap chan2 lab in
  ones <~ lift (np_ones kernel_size) ;;
  let kernel := np_div ones (IZR (kernel_size ^ 2)) in
  L_mean <~ lift (filter2D L kernel) ;;
  a_mean <~ lift (filter2D a kernel) ;;
  b_mean <~ lift (filter2D b kernel) ;;
  let L_diff := np_abs (np_sub L L_mean) in
  let a_diff := np_abs (np_sub a a_mean) in
  let b_diff := np_abs (np_sub b b_mean) in
  L_lap <~ lift (Laplacian L) ;;
  let L_lap_abs := np_abs L_lap in
  gray <~ lift (cvtColor COLOR_BGR2GRAY bgr) ;;
  let entropy_val := entropy_of_hist (calcHist gray) in
  let entropy := np_full_like L entropy_val in
  ws <~ lift (unpack5 weights) ;;
  let '(w1, w2, w3, w4, w5) := ws in
  let q :=
    np_add (np_add (np_add (np_add (np_scale w1 L_diff)
                                   (np_scale w2 a_diff))
                           (np_scale w3 b_diff))
                   (np_scale w4 L_lap_abs))
           (np_scale w5 entropy) in
  py_ret (q, rgb).

End ChargeEffects.

(** [visualize_aesthetic_charge(q, rgb)] (lines 62-74): eleven pyplot calls
    in a row.  What matplotlib draws, and what it raises on arrays it cannot
    show, is outside the model. *)
Definition visualize_aesthetic_charge (q : ndarray R) (rgb : ndarray pixel)
  : py unit :=
  u <~ plt (plt_figure (12, 6)%Z) ;;
  u <~ plt (plt_subplot 1 2 1) ;;
  u <~ plt (plt_imshow rgb) ;;
  u <~ plt (plt_title "Original Image") ;;
  u <~ plt (plt_axis "off") ;;
  u <~ plt (plt_subplot 1 2 2) ;;
  u <~ plt (plt_imshow_cmap q "inferno") ;;
  u <~ plt (plt_title "Aesthetic Charge Map") ;;
  u <~ plt (plt_axis "off") ;;
  u <~ plt plt_tight_layout ;;
  plt plt_show.

(** The pyplot calls among the events of a log. *)
Definition display_events (log : list io_event) : list pyplot_call :=
  flat_map (fun ev => match ev with
                      | PyplotEvent c => [c]
                      | ImreadEvent _ => []
                      end) log.

(** The paths read among the events of a log. *)
Definition disk_reads (log : list io_event) : list string :=
  flat_map (fun ev => match ev with
                      | ImreadEvent path => [path]
                      | PyplotEvent _ => []
                      end) log.

(** * Properties *)

(** ** Powers of two *)

Lemma pow2_pos (z : Z) : 0 < powerRZ 2 z.
Proof. apply powerRZ_lt; lra. Qed.

Lemma pow2_add (a b : Z) : powerRZ 2 (a + b) = powerRZ 2 a * powerRZ 2 b.
Proof. apply powerRZ_add; lra. Qed.

Lemma pow2_ge1 (z : Z) : (0 <= z)%Z -> 1 <= powerRZ 2 z.
Proof.
  intros Hz. destruct z as [|p|p]; simpl; try lra; try lia.
  apply pow_R1_Rle. lra.
Qed.

Lemma pow2_le (a b : Z) : (a <= b)%Z -> powerRZ 2 a <= powerRZ 2 b.
Proof.
  intros Hab. replace b with (a + (b - a))%Z by lia.
  rewrite pow2_add.
  assert (H1 := pow2_ge1 (b - a) ltac:(lia)).
  assert (H2 := pow2_pos a). nra.
Qed.

Lemma pow2_lt (a b : Z) : (a < b)%Z -> powerRZ 2 a < powerRZ 2 b.
Proof.
  intros Hab.
  assert (H1 := pow2_le (a + 1) b ltac:(lia)).
  rewrite pow2_add in H1. simpl in H1.
  assert (H2 := pow2_pos a). lra.
Qed.

Lemma pow2_lt_inv (a b : Z) : powerRZ 2 a < powerRZ 2 b -> (a < b)%Z.
Proof.
  intros H. destruct (Z_lt_le_dec a b) as [Hlt|Hle]; [exact Hlt|].
  apply pow2_le in Hle. lra.
Qed.

Lemma pow2_cancel (a : Z) : powerRZ 2 (- a) * powerRZ 2 a = 1.
Proof.
  rewrite <- pow2_add. replace (- a + a)%Z with 0%Z by lia. reflexivity.
Qed.

(** ** The binary exponent *)

Lemma ln2_pos : 0 < ln 2.
Proof. rewrite <- ln_1. apply ln_increasing; lra. Qed.

Lemma pow2_exp (z : Z) : powerRZ 2 z = exp (IZR z * ln 2).
Proof. rewrite powerRZ_Rpower by lra. reflexivity. Qed.

Lemma mag2_spec (x : R) :
  0 < x -> powerRZ 2 (mag2 x) <= x < powerRZ 2 (mag2 x + 1).
Proof.
  intros Hx. unfold mag2.
  destruct (Zfloor_bound (ln x / ln 2)) as [Hlo Hhi].
  set (e := Zfloor (ln x / ln 2)) in *.
  assert (H2 := ln2_pos).
  assert (Hlo' : IZR e * ln 2 <= ln x).
  { apply Rmult_le_compat_r with (r := ln 2) in Hlo; [|lra].
    unfold Rdiv in Hlo. rewrite Rmult_assoc, Rinv_l, Rmult_1_r in Hlo; lra. }
  assert (Hhi' : ln x < IZR (e + 1) * ln 2).
  { rewrite plus_IZR.
    apply Rmult_lt_compat_r with (r := ln 2) in Hhi; [|lra].
    unfold Rdiv in Hhi. rewrite Rmult_assoc, Rinv_l, Rmult_1_r in Hhi; lra. }
  rewrite !pow2_exp. split.
  - rewrite <- (exp_ln x Hx) at 1.
    destruct Hlo' as [Hlt|Heq].
    + left. apply exp_increasing. exact Hlt.
    + right. rewrite Heq. reflexivity.
  - rewrite <- (exp_ln x Hx) at 1.
    apply exp_increasing. exact Hhi'.
Qed.

Lemma mag2_unique (x : R) (k : Z) :
  powerRZ 2 k <= x < powerRZ 2 (k + 1) -> mag2 x = k.
Proof.
  intros [Hlo Hhi].
  assert (Hx : 0 < x) by (assert (H := pow2_pos k); lra).
  destruct (mag2_spec x Hx) as [Mlo Mhi].
  assert (H1 : (mag2 x < k + 1)%Z) by (apply pow2_lt_inv; lra).
  assert (H2 : (k < mag2 x + 1)%Z) by (apply pow2_lt_inv; lra).
  lia.
Qed.

(** ** Rounding to the nearest integer *)

Lemma rne_cases (t : R) : rne t = Zfloor t \/ rne t = (Zfloor t + 1)%Z.
Proof.
  unfold rne.
  destruct (Rlt_dec (t - IZR (Zfloor t)) (1 / 2)); [now left|].
  destruct (Rlt_dec (1 / 2) (t - IZR (Zfloor t))); [now right|].
  destruct (Z.even (Zfloor t)); [now left|now right].
Qed.

Lemma rne_ge (t : R) (z : Z) : IZR z <= t -> (z <= rne t)%Z.
Proof.
  intros H. apply Zfloor_lub in H.
  destruct (rne_cases t) as [E|E]; rewrite E; lia.
Qed.

Lemma rne_le (t : R) (z : Z) : t <= IZR z -> (rne t <= z)%Z.
Proof.
  intros H.
  destruct (Zfloor_bound t) as [Hlo Hhi].
  destruct (Z_lt_le_dec (Zfloor t) z) as [Hlt|Hge].
  - destruct (rne_cases t) as [E|E]; rewrite E; lia.
  - assert (Ht : t = IZR z).
    { apply IZR_le in Hge. lra. }
    subst t. unfold rne. rewrite ZfloorZ.
    destruct (Rlt_dec (IZR z - IZR z) (1 / 2)); [lia|lra].
Qed.

Lemma rne_near (t : R) (z : Z) : IZR z <= t < IZR z + 1 / 2 -> rne t = z.
Proof.
  intros [Hlo Hhi].
  assert (Hf : Zfloor t = z) by (apply Zfloor_eq; lra).
  unfold rne. rewrite Hf.
  destruct (Rlt_dec (t - IZR z) (1 / 2)); [reflexivity|lra].
Qed.

(** ** Rounding to 24 significant bits *)

Lemma round_pos_bounds (x : R) :
  0 < x ->
  powerRZ 2 (mag2 x) <= round_pos x <= powerRZ 2 (mag2 x + 1).
Proof.
  intros Hx. destruct (mag2_spec x Hx) as [Mlo Mhi].
  unfold round_pos. set (e := mag2 x) in *.
  set (t := x * powerRZ 2 (- (e - 23))).
  assert (Hp := pow2_pos (- (e - 23))).
  assert (Hq := pow2_pos (e - 23)).
  assert (Hc := pow2_cancel (e - 23)).
  assert (Elo : powerRZ 2 e * powerRZ 2 (- (e - 23)) = IZR (2 ^ 23)).
  { rewrite <- pow2_add. replace (e + - (e - 23))%Z with 23%Z by lia.
    simpl. lra. }
  assert (Ehi : powerRZ 2 (e + 1) * powerRZ 2 (- (e - 23)) = IZR (2 ^ 24)).
  { rewrite <- pow2_add. replace (e + 1 + - (e - 23))%Z with 24%Z by lia.
    simpl. lra. }
  assert (Tlo : IZR (2 ^ 23) <= t) by (unfold t; nra).
  assert (Thi : t <= IZR (2 ^ 24)) by (unfold t; nra).
  apply rne_ge in Tlo. apply rne_le in Thi.
  apply IZR_le in Tlo. apply IZR_le in Thi.
  rewrite <- Elo in Tlo. rewrite <- Ehi in Thi.
  split.
  - apply Rle_trans with
      (powerRZ 2 e * powerRZ 2 (- (e - 23)) * powerRZ 2 (e - 23)).
    + rewrite Rmult_assoc, Hc. lra.
    + apply Rmult_le_compat_r; lra.
  - apply Rle_trans with
      (powerRZ 2 (e + 1) * powerRZ 2 (- (e - 23)) * powerRZ 2 (e - 23)).
    + apply Rmult_le_compat_r; lra.
    + rewrite Rmult_assoc, Hc. lra.
Qed.

Lemma round_pos_gt0 (x : R) : 0 < x -> 0 < round_pos x.
Proof.
  intros Hx. destruct (round_pos_bounds x Hx) as [H _].
  assert (Hp := pow2_pos (mag2 x)). lra.
Qed.

(** A value less than half an ulp above a power of two rounds to it. *)
Lemma round_pos_absorb (x : R) (k : Z) :
  powerRZ 2 k <= x < powerRZ 2 k + powerRZ 2 (k - 24) ->
  round_pos x = powerRZ 2 k.
Proof.
  intros [Hlo Hhi].
  assert (Hk := pow2_pos k).
  assert (Hm : mag2 x = k).
  { apply mag2_unique. split; [exact Hlo|].
    rewrite pow2_add. simpl.
    assert (H := pow2_le (k - 24) k ltac:(lia)). lra. }
  unfold round_pos. rewrite Hm.
  set (s := powerRZ 2 (- (k - 23))).
  assert (Hs : 0 < s) by apply pow2_pos.
  assert (E1 : powerRZ 2 k * s = IZR (2 ^ 23)).
  { unfold s. rewrite <- pow2_add. replace (k + - (k - 23))%Z with 23%Z by lia.
    simpl. lra. }
  assert (E2 : powerRZ 2 (k - 24) * s = 1 / 2).
  { unfold s. rewrite <- pow2_add.
    replace (k - 24 + - (k - 23))%Z with (-1)%Z by lia. simpl. lra. }
  assert (Hr : rne (x * s) = (2 ^ 23)%Z).
  { apply rne_near. split; nra. }
  rewrite Hr, <- E1. unfold s. rewrite Rmult_assoc, pow2_cancel. lra.
Qed.

Lemma round_pos_le_pow2 (x : R) (k : Z) :
  0 < x < powerRZ 2 k -> round_pos x <= powerRZ 2 k.
Proof.
  intros [Hx Hk].
  destruct (round_pos_bounds x Hx) as [_ Hhi].
  destruct (mag2_spec x Hx) as [Mlo _].
  assert (Hm : (mag2 x < k)%Z) by (apply pow2_lt_inv; lra).
  assert (H := pow2_le (mag2 x + 1) k ltac:(lia)). lra.
Qed.

Lemma round_float32_pos (x : R) : 0 < x -> round_float32 x = round_pos x.
Proof.
  intros Hx. unfold round_float32.
  destruct (Rlt_dec 0 x); [reflexivity|contradiction].
Qed.

(** ** The floor and the sum [hist + 1e-9] *)

Lemma floor32_bounds : 0 < floor32 <= powerRZ 2 (-29).
Proof.
  unfold floor32.
  assert (Hx : 0 < 1 / 1000000000) by lra.
  rewrite (round_float32_pos _ Hx).
  split; [apply round_pos_gt0; exact Hx|].
  apply round_pos_le_pow2. split; [exact Hx|]. simpl. lra.
Qed.

Lemma fadd32_floor_pos (p : R) : 0 <= p -> 0 < fadd32 p floor32.
Proof.
  intros Hp. destruct floor32_bounds as [Hf _].
  unfold fadd32. rewrite round_float32_pos by lra.
  apply round_pos_gt0. lra.
Qed.

(** Below or at a power of two [2^k] with [-4 <= k], the sum stays at most
    [2^k]: the floor is less than half an ulp of [2^k]. *)
Lemma fadd32_floor_le_pow2 (p : R) (k : Z) :
  (-4 <= k)%Z -> 0 <= p <= powerRZ 2 k -> fadd32 p floor32 <= powerRZ 2 k.
Proof.
  intros Hk [Hp0 Hp1]. destruct floor32_bounds as [Hf0 Hf1].
  unfold fadd32. rewrite round_float32_pos by lra.
  destruct (Rlt_dec (p + floor32) (powerRZ 2 k)) as [Hlt|Hge].
  - apply round_pos_le_pow2. lra.
  - right. apply round_pos_absorb.
    assert (H := pow2_lt (-29) (k - 24) ltac:(lia)). lra.
Qed.

Lemma fadd32_floor_at_pow2 (k : Z) :
  (-4 <= k)%Z -> fadd32 (powerRZ 2 k) floor32 = powerRZ 2 k.
Proof.
  intros Hk. destruct floor32_bounds as [Hf0 Hf1].
  assert (Hp := pow2_pos k).
  unfold fadd32. rewrite round_float32_pos by lra.
  apply round_pos_absorb.
  assert (H := pow2_lt (-29) (k - 24) ltac:(lia)). lra.
Qed.

Lemma fadd32_floor_one : fadd32 1 floor32 = 1.
Proof. exact (fadd32_floor_at_pow2 0 ltac:(lia)). Qed.

Lemma fadd32_floor_le1 (p : R) : 0 <= p <= 1 -> fadd32 p floor32 <= 1.
Proof. intros H. exact (fadd32_floor_le_pow2 p 0 ltac:(lia) H). Qed.

Lemma fadd32_floor_le_half (p : R) :
  0 <= p <= 1 / 2 -> fadd32 p floor32 <= 1 / 2.
Proof.
  intros H.
  assert (E : powerRZ 2 (-1) = 1 / 2) by (simpl; lra).
  rewrite <- E. apply fadd32_floor_le_pow2; [lia|]. rewrite E. exact H.
Qed.

(** ** Base-2 logarithm *)

Lemma log2_1 : log2 1 = 0.
Proof. unfold log2. rewrite ln_1. lra. Qed.

Lemma log2_neg (x : R) : 0 < x < 1 -> log2 x < 0.
Proof.
  intros [H0 H1]. unfold log2.
  assert (H2 := ln2_pos).
  assert (Hl : ln x < 0) by (rewrite <- ln_1; apply ln_increasing; lra).
  unfold Rdiv. assert (Hi := Rinv_0_lt_compat _ H2). nra.
Qed.

Lemma log2_nonpos (x : R) : 0 < x <= 1 -> log2 x <= 0.
Proof.
  intros [H0 [H1|H1]].
  - left. apply log2_neg. lra.
  - subst x. right. apply log2_1.
Qed.

(** ** One summand of the entropy *)

Lemma plogp_0 : plogp 0 = 0.
Proof. unfold plogp. lra. Qed.

Lemma plogp_1 : plogp 1 = 0.
Proof. unfold plogp. rewrite fadd32_floor_one, log2_1. lra. Qed.

Lemma plogp_nonpos (p : R) : 0 <= p <= 1 -> plogp p <= 0.
Proof.
  intros Hp. unfold plogp.
  assert (H1 := fadd32_floor_pos p ltac:(lra)).
  assert (H2 := fadd32_floor_le1 p Hp).
  assert (H3 := log2_nonpos _ (conj H1 H2)). nra.
Qed.

Lemma plogp_neg (p : R) : 0 < p <= 1 / 2 -> plogp p < 0.
Proof.
  intros Hp. unfold plogp.
  assert (H1 := fadd32_floor_pos p ltac:(lra)).
  assert (H2 := fadd32_floor_le_half p ltac:(lra)).
  assert (H3 := log2_neg (fadd32 p floor32) ltac:(lra)). nra.
Qed.

(** Without the binary32 rounding the floor would leave a residue at
    [p = 1]: in exact arithmetic [log2 (1 + 1e-9)] is not zero. *)
Remark exact_floor_residue : 0 < 1 * log2 (1 + 1 / 1000000000).
Proof.
  unfold log2. assert (H2 := ln2_pos).
  assert (Hl : 0 < ln (1 + 1 / 1000000000))
    by (rewrite <- ln_1 at 1; apply ln_increasing; lra).
  assert (Hi := Rinv_0_lt_compat _ H2). unfold Rdiv. nra.
Qed.

(** ** Sums *)

Lemma np_sum_INR (c : list nat) : np_sum (map INR c) = INR (list_sum c).
Proof.
  induction c as [|x c IH]; simpl; [reflexivity|].
  rewrite plus_INR, <- IH. reflexivity.
Qed.

Lemma np_sum_nonpos (l : list R) :
  (forall x, In x l -> x <= 0) -> np_sum l <= 0.
Proof.
  induction l as [|x l IH]; simpl; intros H; [lra|].
  assert (Hx := H x (or_introl eq_refl)).
  assert (Hl := IH (fun y Hy => H y (or_intror Hy))). lra.
Qed.

Lemma np_sum_zero_inv (l : list R) :
  (forall x, In x l -> x <= 0) -> np_sum l = 0 ->
  forall x, In x l -> x = 0.
Proof.
  induction l as [|y l IH]; simpl; intros H Hs x Hx; [contradiction|].
  assert (Hy := H y (or_introl eq_refl)).
  assert (Hl := np_sum_nonpos l (fun z Hz => H z (or_intror Hz))).
  destruct Hx as [->|Hx]; [lra|].
  apply IH; [intros z Hz; apply H; now right|lra|exact Hx].
Qed.

Lemma np_sum_all_zero (l : list R) :
  (forall x, In x l -> x = 0) -> np_sum l = 0.
Proof.
  induction l as [|y l IH]; simpl; intros H; [reflexivity|].
  rewrite (H y (or_introl eq_refl)), IH; [lra|].
  intros z Hz. apply H. now right.
Qed.

Lemma np_sum_ext (f g : nat -> R) (l : list nat) :
  (forall n, In n l -> f n = g n) ->
  np_sum (map f l) = np_sum (map g l).
Proof.
  induction l as [|x l IH]; simpl; intros H; [reflexivity|].
  rewrite (H x (or_introl eq_refl)), IH; [reflexivity|].
  intros n Hn. apply H. now right.
Qed.

Lemma sum_upto_ext (n : nat) (f g : nat -> R) :
  (forall u, (u < n)%nat -> f u = g u) -> sum_upto n f = sum_upto n g.
Proof.
  intros H. unfold sum_upto. apply np_sum_ext.
  intros u Hu. apply in_seq in Hu. apply H. lia.
Qed.

Lemma np_sum_scale (c : R) (f : nat -> R) (l : list nat) :
  np_sum (map (fun u => c * f u) l) = c * np_sum (map f l).
Proof.
  induction l as [|x l IH]; simpl; [lra|]. rewrite IH. lra.
Qed.

Lemma sum_upto_scale (n : nat) (c : R) (f : nat -> R) :
  sum_upto n (fun u => c * f u) = c * sum_upto n f.
Proof. apply np_sum_scale. Qed.

Lemma np_sum_const (c : R) (l : list nat) :
  np_sum (map (fun _ => c) l) = INR (length l) * c.
Proof.
  induction l as [|x l IH]; [simpl; lra|].
  change (c + np_sum (map (fun _ => c) l) = INR (S (length l)) * c).
  rewrite IH, S_INR. lra.
Qed.

Lemma sum_upto_const (n : nat) (c : R) : sum_upto n (fun _ => c) = INR n * c.
Proof. unfold sum_upto. rewrite np_sum_const, length_seq. reflexivity. Qed.

Lemma list_sum_In (c : list nat) (x : nat) :
  In x c -> (x <= list_sum c)%nat.
Proof.
  induction c as [|y c IH]; simpl; intros H; [contradiction|].
  destruct H as [->|H]; [lia|]. apply IH in H. lia.
Qed.

(** ** Shapes and indexing *)

Lemma has_shape_rows {A : Type} (h w : nat) (x : ndarray A) :
  has_shape h w x -> rows x = h.
Proof. intros [H _]. exact H. Qed.

Lemma has_shape_cols {A : Type} (h w : nat) (x : ndarray A) :
  has_shape h w x -> (0 < h)%nat -> cols x = w.
Proof.
  intros [Hh Hw] Hpos. destruct x as [|r x]; simpl in *; [lia|].
  inversion Hw; assumption.
Qed.

Lemma has_shape_row {A : Type} (h w : nat) (x : ndarray A) (i : nat) :
  has_shape h w x -> (i < h)%nat -> length (nth i x []) = w.
Proof.
  intros [Hh Hw] Hi. rewrite Forall_forall in Hw.
  apply Hw. apply nth_In. lia.
Qed.

Lemma valid_image_shape (img : ndarray pixel) :
  valid_image img -> has_shape (rows img) (cols img) img.
Proof. intros (_ & _ & H & _). split; [reflexivity|exact H]. Qed.

Lemma has_shape_tabulate {A : Type} (h w : nat) (f : nat -> nat -> A) :
  has_shape h w (tabulate h w f).
Proof.
  unfold tabulate. split.
  - rewrite length_map, length_seq. reflexivity.
  - apply Forall_forall. intros r Hr. apply in_map_iff in Hr.
    destruct Hr as (i & <- & _). rewrite length_map, length_seq. reflexivity.
Qed.

Lemma item_tabulate {A : Type} (d : A) (h w : nat) (f : nat -> nat -> A)
  (i j : nat) :
  (i < h)%nat -> (j < w)%nat -> item d (tabulate h w f) i j = f i j.
Proof.
  intros Hi Hj. unfold item, tabulate.
  rewrite (nth_indep _ [] (map (fun j => f 0%nat j) (seq 0 w)))
    by (rewrite length_map, length_seq; exact Hi).
  rewrite (map_nth (fun i => map (fun j => f i j) (seq 0 w)) (seq 0 h) 0%nat i).
  rewrite seq_nth by exact Hi. simpl.
  rewrite (nth_indep _ d (f i 0%nat))
    by (rewrite length_map, length_seq; exact Hj).
  rewrite (map_nth (fun j => f i j) (seq 0 w) 0%nat j).
  rewrite seq_nth by exact Hj. reflexivity.
Qed.

Lemma has_shape_amap {A B : Type} (f : A -> B) (h w : nat) (x : ndarray A) :
  has_shape h w x -> has_shape h w (amap f x).
Proof.
  intros [Hh Hw]. unfold amap. split.
  - rewrite length_map. exact Hh.
  - apply Forall_forall. intros r Hr. apply in_map_iff in Hr.
    destruct Hr as (r' & <- & Hr'). rewrite length_map.
    rewrite Forall_forall in Hw. apply Hw. exact Hr'.
Qed.

Lemma item_amap {A B : Type} (f : A -> B) (d : A) (e : B) (h w : nat)
  (x : ndarray A) (i j : nat) :
  has_shape h w x -> (i < h)%nat -> (j < w)%nat ->
  item e (amap f x) i j = f (item d x i j).
Proof.
  intros Hs Hi Hj. unfold item, amap.
  assert (Hr := has_shape_row h w x i Hs Hi).
  destruct Hs as [Hh _].
  rewrite (nth_indep _ [] (map f [])) by (rewrite length_map; lia).
  rewrite (map_nth (map f) x [] i).
  rewrite (nth_indep _ e (f d)) by (rewrite length_map; lia).
  apply map_nth.
Qed.

Lemma length_zip_with {A B C : Type} (f : A -> B -> C) (l : list A)
  (m : list B) :
  length l = length m -> length (zip_with f l m) = length l.
Proof.
  revert m. induction l as [|a l IH]; intros [|b m] H; simpl in *;
    try reflexivity; try discriminate.
  f_equal. apply IH. lia.
Qed.

Lemma nth_zip_with {A B C : Type} (f : A -> B -> C) (l : list A)
  (m : list B) (da : A) (db : B) (dc : C) (i : nat) :
  length l = length m -> (i < length l)%nat ->
  nth i (zip_with f l m) dc = f (nth i l da) (nth i m db).
Proof.
  revert m i. induction l as [|a l IH]; intros [|b m] i H Hi; simpl in *;
    try lia.
  destruct i as [|i]; [reflexivity|]. apply IH; lia.
Qed.

Lemma has_shape_amap2 {A B C : Type} (f : A -> B -> C) (h w : nat)
  (x : ndarray A) (y : ndarray B) :
  has_shape h w x -> has_shape h w y -> has_shape h w (amap2 f x y).
Proof.
  intros [Hx Wx] [Hy Wy]. unfold amap2. split.
  - rewrite length_zip_with; lia.
  - subst h. revert y Hy Wy.
    induction x as [|r x IH]; intros [|s y] Hy Wy; simpl in *;
      try discriminate; constructor.
    + inversion Wx; inversion Wy; subst.
      rewrite length_zip_with; lia.
    + inversion Wx; inversion Wy; subst. apply IH; auto.
Qed.

Lemma item_amap2 {A B C : Type} (f : A -> B -> C) (da : A) (db : B) (dc : C)
  (h w : nat) (x : ndarray A) (y : ndarray B) (i j : nat) :
  has_shape h w x -> has_shape h w y -> (i < h)%nat -> (j < w)%nat ->
  item dc (amap2 f x y) i j = f (item da x i j) (item db y i j).
Proof.
  intros Hx Hy Hi Hj. unfold item, amap2.
  assert (Rx := has_shape_row h w x i Hx Hi).
  assert (Ry := has_shape_row h w y i Hy Hi).
  destruct Hx as [Lx _]. destruct Hy as [Ly _].
  rewrite (nth_zip_with (zip_with f) x y [] [] [] i) by lia.
  apply nth_zip_with; lia.
Qed.

Lemma rows_amap {A B : Type} (f : A -> B) (x : ndarray A) :
  rows (amap f x) = rows x.
Proof. unfold rows, amap. apply length_map. Qed.

Lemma cols_amap {A B : Type} (f : A -> B) (x : ndarray A) :
  cols (amap f x) = cols x.
Proof. destruct x as [|r x]; simpl; [reflexivity|apply length_map]. Qed.

Lemma is_empty_amap {A B : Type} (f : A -> B) (x : ndarray A) :
  is_empty (amap f x) = is_empty x.
Proof. unfold is_empty. rewrite rows_amap, cols_amap. reflexivity. Qed.

Lemma valid_image_not_empty (img : ndarray pixel) :
  valid_image img -> is_empty img = false.
Proof.
  intros (Hr & Hc & _). unfold is_empty.
  destruct (Nat.eqb_spec (rows img) 0); [lia|].
  destruct (Nat.eqb_spec (cols img) 0); [lia|]. reflexivity.
Qed.

(** ** Small checks of the integer-valued functions *)

Example reflect101_before : borderInterpolate (-1) 4 BORDER_REFLECT_101 = 1%nat.
Proof. reflexivity. Qed.

Example reflect101_after : borderInterpolate 4 4 BORDER_REFLECT_101 = 2%nat.
Proof. reflexivity. Qed.

Example reflect101_far : borderInterpolate (-7) 4 BORDER_REFLECT_101 = 1%nat.
Proof. reflexivity. Qed.

Example reflect101_single : borderInterpolate (-2) 1 BORDER_REFLECT_101 = 0%nat.
Proof. reflexivity. Qed.

Example replicate_before : borderInterpolate (-1) 4 BORDER_REPLICATE = 0%nat.
Proof. reflexivity. Qed.

Example reflect_before : borderInterpolate (-1) 4 BORDER_REFLECT = 0%nat.
Proof. reflexivity. Qed.

Example gray_of_white : COLOR_BGR2GRAY white = 255%Z.
Proof. reflexivity. Qed.

Example gray_of_pure_blue : COLOR_BGR2GRAY (255, 0, 0)%Z = 29%Z.
Proof. reflexivity. Qed.

Example gray_of_pure_red : COLOR_BGR2GRAY (0, 0, 255)%Z = 76%Z.
Proof. reflexivity. Qed.

Example checker_histogram :
  let hist := calcHist (amap COLOR_BGR2GRAY checker2x2) in
  nth 0 hist 0%nat = 2%nat /\ nth 255 hist 0%nat = 2%nat /\
  list_sum hist = 4%nat /\ occupied hist = 2%nat.
Proof. vm_compute. repeat split. Qed.

Example flat_histogram :
  let hist := calcHist (amap COLOR_BGR2GRAY flat4x4) in
  nth 128 hist 0%nat = 16%nat /\ occupied hist = 1%nat.
Proof. vm_compute. repeat split. Qed.

Example unpack_three :
  unpack5 [1; 2; 3]
  = raise ValueError "not enough values to unpack (expected 5, got 3)".
Proof. reflexivity. Qed.

Example unpack_none :
  unpack5 []
  = raise ValueError "not enough values to unpack (expected 5, got 0)".
Proof. reflexivity. Qed.

Example unpack_six :
  unpack5 [1; 2; 3; 4; 5; 6]
  = raise ValueError "too many values to unpack (expected 5)".
Proof. reflexivity. Qed.

(** ** Border extrapolation *)

Lemma borderInterpolate_inside (p : Z) (len : nat) (bt : BorderType) :
  (0 <= p < Z.of_nat len)%Z -> borderInterpolate p len bt = Z.to_nat p.
Proof.
  intros H. unfold borderInterpolate.
  destruct (Z.leb_spec 0 p); [|lia].
  destruct (Z.ltb_spec p (Z.of_nat len)); [|lia]. reflexivity.
Qed.

Lemma borderInterpolate_lt (p : Z) (len : nat) (bt : BorderType) :
  (0 < len)%nat -> (borderInterpolate p len bt < len)%nat.
Proof.
  intros Hlen. unfold borderInterpolate.
  destruct (Z.leb_spec 0 p); destruct (Z.ltb_spec p (Z.of_nat len));
    cbn [andb]; try lia.
  all: destruct bt.
  all: try (destruct (Z.ltb_spec p 0); lia).
  all: destruct (Nat.eqb_spec len 1); try lia.
  all: match goal with
       | |- context [(?q mod ?m)%Z] =>
           assert (Hm := Z.mod_pos_bound q m ltac:(lia));
           destruct (Z.ltb_spec (q mod m) (Z.of_nat len)); lia
       end.
Qed.

(** ** Linear filters, pixel by pixel *)

Lemma has_shape_correlate (bt : BorderType) (src kernel : ndarray R) :
  has_shape (rows src) (cols src) (correlate bt src kernel).
Proof. apply has_shape_tabulate. Qed.

Lemma item_correlate (bt : BorderType) (src kernel : ndarray R) (i j : nat) :
  (i < rows src)%nat -> (j < cols src)%nat ->
  item 0 (correlate bt src kernel) i j =
  sum_upto (rows kernel) (fun u =>
    sum_upto (cols kernel) (fun v =>
      item 0 kernel u v *
      neighbour bt src i j
        (Z.of_nat u - Z.of_nat (rows kernel / 2))
        (Z.of_nat v - Z.of_nat (cols kernel / 2)))).
Proof.
  intros Hi Hj. unfold correlate.
  rewrite item_tabulate by assumption. reflexivity.
Qed.

(** The kernel [np.ones((k, k)) / k ** 2] of line 26 *)
Lemma box_kernel_shape (k : Z) :
  has_shape (Z.to_nat k) (Z.to_nat k)
    (np_div (tabulate (Z.to_nat k) (Z.to_nat k) (fun _ _ => 1))
            (IZR (k ^ 2))).
Proof. apply has_shape_amap, has_shape_tabulate. Qed.

Lemma box_kernel_item (k : Z) (u v : nat) :
  (u < Z.to_nat k)%nat -> (v < Z.to_nat k)%nat ->
  item 0 (np_div (tabulate (Z.to_nat k) (Z.to_nat k) (fun _ _ => 1))
                 (IZR (k ^ 2))) u v = 1 / IZR (k ^ 2).
Proof.
  intros Hu Hv. unfold np_div.
  rewrite (item_amap _ 0 0 (Z.to_nat k) (Z.to_nat k))
    by (try apply has_shape_tabulate; assumption).
  rewrite item_tabulate by assumption. reflexivity.
Qed.

Lemma box_kernel_norm (k : Z) :
  (0 < k)%Z -> IZR (k ^ 2) = INR (Z.to_nat k * Z.to_nat k).
Proof.
  intros Hk. rewrite mult_INR, INR_IZR_INZ, Z2Nat.id by lia.
  rewrite <- mult_IZR. f_equal. lia.
Qed.

Lemma box_filter_item (k : Z) (src : ndarray R) (i j : nat) :
  (0 < k)%Z -> (i < rows src)%nat -> (j < cols src)%nat ->
  item 0 (correlate BORDER_DEFAULT src
            (np_div (tabulate (Z.to_nat k) (Z.to_nat k) (fun _ _ => 1))
                    (IZR (k ^ 2)))) i j
  = local_mean (Z.to_nat k) src i j.
Proof.
  intros Hk Hi Hj. rewrite item_correlate by assumption.
  assert (Hs := box_kernel_shape k).
  assert (Hpos : (0 < Z.to_nat k)%nat) by lia.
  rewrite (has_shape_rows _ _ _ Hs), (has_shape_cols _ _ _ Hs Hpos).
  unfold local_mean. rewrite <- (box_kernel_norm k Hk).
  unfold Rdiv at 1. rewrite Rmult_comm, <- sum_upto_scale.
  apply sum_upto_ext. intros u Hu.
  rewrite <- sum_upto_scale.
  apply sum_upto_ext. intros v Hv.
  rewrite box_kernel_item by assumption.
  unfold BORDER_DEFAULT. lra.
Qed.

Lemma laplacian_item (src : ndarray R) (i j : nat) :
  (i < rows src)%nat -> (j < cols src)%nat ->
  item 0 (correlate BORDER_DEFAULT src laplacian_kernel) i j
  = laplacian4 src i j.
Proof.
  intros Hi Hj. rewrite item_correlate by assumption.
  unfold laplacian4, BORDER_DEFAULT, sum_upto, laplacian_kernel, item.
  simpl. lra.
Qed.

Lemma has_shape_correlate' (bt : BorderType) (h w : nat)
  (src kernel : ndarray R) :
  has_shape h w src -> (0 < h)%nat -> has_shape h w (correlate bt src kernel).
Proof.
  intros Hs Hh.
  rewrite <- (has_shape_rows h w src Hs) at 1.
  rewrite <- (has_shape_cols h w src Hs Hh) at 1.
  apply has_shape_correlate.
Qed.

Lemma box_kernel_not_empty (k : Z) :
  (0 < k)%Z ->
  is_empty (np_div (tabulate (Z.to_nat k) (Z.to_nat k) (fun _ _ => 1))
                   (IZR (k ^ 2))) = false.
Proof.
  intros Hk. assert (Hs := box_kernel_shape k).
  assert (Hpos : (0 < Z.to_nat k)%nat) by lia.
  unfold is_empty.
  rewrite (has_shape_rows _ _ _ Hs), (has_shape_cols _ _ _ Hs Hpos).
  destruct (Nat.eqb_spec (Z.to_nat k) 0); [lia|reflexivity].
Qed.

Lemma bind_ret {A B : Type} (x : A) (k : A -> result B) :
  bind (ret x) k = k x.
Proof. reflexivity. Qed.

Lemma bind_raise {A B : Type} (cls msg : string) (k : A -> result B) :
  bind (raise cls msg) k = raise cls msg.
Proof. reflexivity. Qed.

Lemma unpack5_bad (weights : list R) :
  length weights <> 5%nat ->
  unpack5 weights =
  if (length weights <? 5)%nat
  then raise ValueError (not_enough_values (length weights))
  else raise ValueError too_many_values.
Proof.
  intros H.
  destruct weights as [|w1 [|w2 [|w3 [|w4 [|w5 [|w6 l]]]]]];
    try reflexivity.
  simpl in H. lia.
Qed.

#[local] Ltac shape_tac :=
  repeat first
    [ assumption
    | apply has_shape_amap2
    | apply has_shape_amap
    | apply has_shape_correlate'
    | apply valid_image_shape ].

Section ChargeFacts.

Variable rgb2lab_px : pixel -> lab_pixel.

(** A readable image, a positive kernel size and five weights: the call
    returns a field of the image's shape whose value at every pixel is the
    weighted sum of the five contributions. *)
Lemma compute_pointwise (disk : filesystem) (image_path : string)
  (kernel_size : Z) (w1 w2 w3 w4 w5 : R) (bgr : ndarray pixel) :
  disk image_path = Some bgr -> valid_image bgr -> (0 < kernel_size)%Z ->
  exists q : ndarray R,
    compute_aesthetic_charge rgb2lab_px disk image_path kernel_size
      [w1; w2; w3; w4; w5]
      = inr (q, amap COLOR_BGR2RGB bgr) /\
    has_shape (rows bgr) (cols bgr) q /\
    forall i j : nat, (i < rows bgr)%nat -> (j < cols bgr)%nat ->
      item 0 q i j =
      w1 * contrast kernel_size (L_of rgb2lab_px bgr) i j
      + w2 * contrast kernel_size (a_of rgb2lab_px bgr) i j
      + w3 * contrast kernel_size (b_of rgb2lab_px bgr) i j
      + w4 * curvature (L_of rgb2lab_px bgr) i j
      + w5 * entropy_const bgr.
Proof.
  intros Hdisk Hvalid Hk.
  assert (Hne := valid_image_not_empty bgr Hvalid).
  assert (Hshape := valid_image_shape bgr Hvalid).
  assert (Hrows : (0 < rows bgr)%nat) by apply Hvalid.
  unfold compute_aesthetic_charge, imread. rewrite Hdisk.
  unfold cvtColor. rewrite Hne, !bind_ret.
  unfold np_ones. destruct (Z.ltb_spec kernel_size 0) as [Hneg|_]; [lia|].
  rewrite bind_ret.
  unfold filter2D, Laplacian, filter2D_border.
  rewrite (box_kernel_not_empty kernel_size Hk), !bind_ret.
  change (is_empty laplacian_kernel) with false. cbv iota.
  rewrite !bind_ret. unfold unpack5. rewrite bind_ret.
  fold (lab_of rgb2lab_px bgr).
  fold (L_of rgb2lab_px bgr) (a_of rgb2lab_px bgr) (b_of rgb2lab_px bgr).
  fold (entropy_const bgr).
  set (kernel := np_div _ _).
  assert (SL : has_shape (rows bgr) (cols bgr) (L_of rgb2lab_px bgr))
    by (unfold L_of, lab_of, rgb2lab; shape_tac).
  assert (Sa : has_shape (rows bgr) (cols bgr) (a_of rgb2lab_px bgr))
    by (unfold a_of, lab_of, rgb2lab; shape_tac).
  assert (Sb : has_shape (rows bgr) (cols bgr) (b_of rgb2lab_px bgr))
    by (unfold b_of, lab_of, rgb2lab; shape_tac).
  eexists. split; [reflexivity|]. split.
  - unfold np_add, np_scale, np_abs, np_sub, np_full_like. shape_tac.
  - intros i j Hi Hj.
    unfold np_add, np_scale, np_abs, np_sub, np_full_like.
    repeat (rewrite (item_amap2 _ 0 0 0 (rows bgr) (cols bgr))
              by (try assumption; shape_tac)).
    repeat (rewrite (item_amap _ 0 0 (rows bgr) (cols bgr))
              by (try assumption; shape_tac)).
    repeat (rewrite (item_amap2 _ 0 0 0 (rows bgr) (cols bgr))
              by (try assumption; shape_tac)).
    unfold kernel.
    rewrite !box_filter_item, laplacian_item;
      rewrite ?(has_shape_rows _ _ _ SL), ?(has_shape_cols _ _ _ SL Hrows),
              ?(has_shape_rows _ _ _ Sa), ?(has_shape_cols _ _ _ Sa Hrows),
              ?(has_shape_rows _ _ _ Sb), ?(has_shape_cols _ _ _ Sb Hrows);
      try assumption.
    unfold contrast, curvature. reflexivity.
Qed.

(** *** Failing calls *)

Lemma compute_unreadable (disk : filesystem) (image_path : string)
  (kernel_size : Z) (weights : list R) :
  disk image_path = None \/
  (exists img, disk image_path = Some img /\ is_empty img = true) ->
  compute_aesthetic_charge rgb2lab_px disk image_path kernel_size weights
    = raise cv2_error cvtColor_assert.
Proof.
  unfold compute_aesthetic_charge, imread, cvtColor.
  intros [E|(img & E & Hemp)]; rewrite E; [|rewrite Hemp]; reflexivity.
Qed.

Lemma compute_negative_kernel (disk : filesystem) (image_path : string)
  (kernel_size : Z) (weights : list R) (bgr : ndarray pixel) :
  disk image_path = Some bgr -> is_empty bgr = false ->
  (kernel_size < 0)%Z ->
  compute_aesthetic_charge rgb2lab_px disk image_path kernel_size weights
    = raise ValueError "negative dimensions are not allowed".
Proof.
  intros E Hne Hk.
  unfold compute_aesthetic_charge, imread, cvtColor.
  rewrite E, Hne, bind_ret. unfold np_ones.
  destruct (Z.ltb_spec kernel_size 0); [reflexivity|lia].
Qed.

Lemma compute_zero_kernel (disk : filesystem) (image_path : string)
  (weights : list R) (bgr : ndarray pixel) :
  disk image_path = Some bgr -> is_empty bgr = false ->
  compute_aesthetic_charge rgb2lab_px disk image_path 0 weights
    = raise cv2_error filter2D_assert.
Proof.
  intros E Hne.
  unfold compute_aesthetic_charge, imread, cvtColor.
  rewrite E, Hne, bind_ret. reflexivity.
Qed.

Lemma compute_bad_weights (disk : filesystem) (image_path : string)
  (kernel_size : Z) (weights : list R) (bgr : ndarray pixel) :
  disk image_path = Some bgr -> is_empty bgr = false ->
  (0 < kernel_size)%Z -> length weights <> 5%nat ->
  compute_aesthetic_charge rgb2lab_px disk image_path kernel_size weights
    = raise ValueError
        (if (length weights <? 5)%nat
         then not_enough_values (length weights)
         else too_many_values).
Proof.
  intros E Hne Hk Hlen.
  unfold compute_aesthetic_charge, imread, cvtColor.
  rewrite E, Hne, !bind_ret. unfold np_ones.
  destruct (Z.ltb_spec kernel_size 0) as [Hneg|_]; [lia|].
  rewrite bind_ret. unfold filter2D, Laplacian, filter2D_border.
  rewrite (box_kernel_not_empty kernel_size Hk), !bind_ret.
  change (is_empty laplacian_kernel) with false. cbv iota.
  rewrite ?bind_ret.
  rewrite (unpack5_bad weights Hlen).
  destruct (length weights <? 5)%nat; reflexivity.
Qed.

(** A call that returns was given a readable, non-empty image, a positive
    kernel size and exactly five weights. *)
Lemma compute_success_inv (disk : filesystem) (image_path : string)
  (kernel_size : Z) (weights : list R) (r : ndarray R * ndarray pixel) :
  compute_aesthetic_charge rgb2lab_px disk image_path kernel_size weights
    = inr r ->
  exists bgr w1 w2 w3 w4 w5,
    disk image_path = Some bgr /\ is_empty bgr = false /\
    (0 < kernel_size)%Z /\ weights = [w1; w2; w3; w4; w5].
Proof.
  intros Hr.
  destruct (disk image_path) as [bgr|] eqn:E.
  2:{ rewrite compute_unreadable in Hr by (left; exact E). discriminate. }
  destruct (is_empty bgr) eqn:Hemp.
  { rewrite compute_unreadable in Hr
      by (right; exists bgr; split; assumption).
    discriminate. }
  destruct (Z.lt_trichotomy kernel_size 0) as [Hk|[Hk|Hk]].
  { rewrite (compute_negative_kernel _ _ _ _ bgr E Hemp Hk) in Hr.
    discriminate. }
  { subst kernel_size.
    rewrite (compute_zero_kernel _ _ _ bgr E Hemp) in Hr. discriminate. }
  destruct (Nat.eq_dec (length weights) 5) as [Hlen|Hlen].
  2:{ rewrite (compute_bad_weights _ _ _ _ bgr E Hemp Hk Hlen) in Hr.
      discriminate. }
  destruct weights as [|w1 [|w2 [|w3 [|w4 [|w5 [|w6 l]]]]]];
    try discriminate Hlen.
  exists bgr, w1, w2, w3, w4, w5. repeat split; try assumption; lia.
Qed.


End ChargeFacts.

(** ** Entropy of a histogram *)

Lemma entropy_of_hist_unfold (counts : list nat) :
  entropy_of_hist counts =
  - np_sum (map (fun c => plogp (INR c / INR (list_sum counts))) counts).
Proof.
  unfold entropy_of_hist. rewrite np_sum_INR, !map_map. reflexivity.
Qed.

Lemma bin_probability (counts : list nat) (c : nat) :
  In c counts -> (0 < list_sum counts)%nat ->
  0 <= INR c / INR (list_sum counts) <= 1.
Proof.
  intros Hin Hpos. apply list_sum_In in Hin.
  assert (HN : 0 < INR (list_sum counts)) by (apply lt_0_INR; exact Hpos).
  assert (Hc : 0 <= INR c) by apply pos_INR.
  apply le_INR in Hin. split.
  - apply Rmult_le_pos; [exact Hc|]. left. apply Rinv_0_lt_compat. exact HN.
  - apply Rmult_le_reg_r with (r := INR (list_sum counts)); [exact HN|].
    unfold Rdiv. rewrite Rmult_assoc, Rinv_l by lra. lra.
Qed.

Lemma entropy_terms_nonpos (counts : list nat) :
  (0 < list_sum counts)%nat ->
  forall x, In x (map (fun c => plogp (INR c / INR (list_sum counts))) counts)
            -> x <= 0.
Proof.
  intros Hpos x Hx. apply in_map_iff in Hx. destruct Hx as (c & <- & Hc).
  apply plogp_nonpos. apply bin_probability; assumption.
Qed.

Lemma entropy_nonneg (counts : list nat) :
  (0 < list_sum counts)%nat -> 0 <= entropy_of_hist counts.
Proof.
  intros Hpos. rewrite entropy_of_hist_unfold.
  assert (Hs := np_sum_nonpos _ (entropy_terms_nonpos counts Hpos)). lra.
Qed.

Lemma occupied_zero (counts : list nat) :
  occupied counts = 0%nat -> list_sum counts = 0%nat.
Proof.
  unfold occupied. induction counts as [|c l IH]; simpl; [reflexivity|].
  destruct (Nat.eqb_spec c 0); simpl; [|discriminate].
  intros Hl. subst c. apply IH. exact Hl.
Qed.

Lemma occupied_bound (counts : list nat) (n : nat) :
  (forall c, In c counts -> c = 0%nat \/ (n < 2 * c)%nat) ->
  (occupied counts * (n + 1) <= 2 * list_sum counts)%nat.
Proof.
  unfold occupied. induction counts as [|c l IH]; simpl; intros Hall; [lia|].
  assert (Hl := IH (fun x Hx => Hall x (or_intror Hx))).
  destruct (Hall c (or_introl eq_refl)) as [->|Hc]; simpl; [lia|].
  destruct (Nat.eqb_spec c 0); simpl; lia.
Qed.

Lemma occupied_one (counts : list nat) :
  occupied counts = 1%nat ->
  forall c, In c counts -> c = 0%nat \/ c = list_sum counts.
Proof.
  unfold occupied. induction counts as [|x l IH]; simpl; [discriminate|].
  destruct (Nat.eqb_spec x 0) as [->|Hx]; simpl; intros Hocc c Hc.
  - destruct Hc as [<-|Hc]; [now left|]. apply IH; assumption.
  - assert (Hl : list_sum l = 0%nat).
    { apply occupied_zero. unfold occupied. lia. }
    destruct Hc as [<-|Hc]; [right; lia|].
    left. apply list_sum_In in Hc. lia.
Qed.

(** Every bin empty or holding all the pixels: the entropy vanishes. *)
Lemma entropy_single_bin (counts : list nat) :
  (0 < list_sum counts)%nat ->
  (forall c, In c counts -> c = 0%nat \/ c = list_sum counts) ->
  entropy_of_hist counts = 0.
Proof.
  intros Hpos Hall. rewrite entropy_of_hist_unfold.
  rewrite np_sum_all_zero; [lra|].
  intros x Hx. apply in_map_iff in Hx. destruct Hx as (c & <- & Hc).
  destruct (Hall c Hc) as [-> | ->].
  - simpl. unfold Rdiv. rewrite Rmult_0_l. apply plogp_0.
  - unfold Rdiv. rewrite Rinv_r; [apply plogp_1|].
    apply not_0_INR. lia.
Qed.

(** A vanishing entropy leaves every occupied bin with more than half of
    the pixels. *)
Lemma entropy_zero_bins (counts : list nat) :
  (0 < list_sum counts)%nat -> entropy_of_hist counts = 0 ->
  forall c, In c counts -> c = 0%nat \/ (list_sum counts < 2 * c)%nat.
Proof.
  intros Hpos Hz c Hc. rewrite entropy_of_hist_unfold in Hz.
  assert (Hs : np_sum (map (fun c => plogp (INR c / INR (list_sum counts)))
                           counts) = 0) by lra.
  assert (Ht := np_sum_zero_inv _ (entropy_terms_nonpos counts Hpos) Hs
                  (plogp (INR c / INR (list_sum counts)))
                  (in_map _ _ _ Hc)).
  destruct (Nat.eq_dec c 0) as [->|Hc0]; [now left|]. right.
  destruct (Nat.lt_ge_cases (list_sum counts) (2 * c)) as [Hlt|Hge];
    [exact Hlt|exfalso].
  assert (HN : 0 < INR (list_sum counts)) by (apply lt_0_INR; exact Hpos).
  assert (Hcp : 0 < INR c) by (apply lt_0_INR; lia).
  apply le_INR in Hge. rewrite mult_INR in Hge. simpl in Hge.
  assert (Hi := Rinv_0_lt_compat _ HN).
  assert (Hp : 0 < INR c / INR (list_sum counts) <= 1 / 2).
  { split; [unfold Rdiv; nra|].
    apply Rmult_le_reg_r with (r := INR (list_sum counts)); [exact HN|].
    unfold Rdiv. rewrite Rmult_assoc, Rinv_l by lra. lra. }
  apply plogp_neg in Hp. lra.
Qed.

Lemma entropy_zero_iff (counts : list nat) :
  (0 < list_sum counts)%nat ->
  (entropy_of_hist counts = 0 <-> occupied counts = 1%nat).
Proof.
  intros Hpos. split.
  - intros Hz.
    assert (Hb := occupied_bound counts (list_sum counts)
                    (entropy_zero_bins counts Hpos Hz)).
    assert (Hn : occupied counts <> 0%nat).
    { intros H0. apply occupied_zero in H0. lia. }
    nia.
  - intros Hocc. apply entropy_single_bin; [exact Hpos|].
    apply occupied_one. exact Hocc.
Qed.

(** ** The histogram of a gray image *)

Lemma gray_of_bgr_range (p : pixel) :
  uint8_pixel p -> (0 <= gray_of_bgr p < 256)%Z.
Proof.
  intros (H0 & H1 & H2). unfold uint8 in *. unfold gray_of_bgr.
  rewrite Z.shiftr_div_pow2 by lia.
  change (2 ^ 15)%Z with 32768%Z. split.
  - apply Z.div_pos; lia.
  - apply Z.div_lt_upper_bound; lia.
Qed.

Lemma list_sum_indicator (x : Z) (n : nat) :
  list_sum (map (fun v => if Z.eq_dec x (Z.of_nat v) then 1%nat else 0%nat)
                (seq 0 n))
  = if ((0 <=? x) && (x <? Z.of_nat n))%Z%bool then 1%nat else 0%nat.
Proof.
  induction n as [|n IH].
  { simpl. destruct (Z.leb_spec 0 x); destruct (Z.ltb_spec x 0); simpl; lia. }
  rewrite seq_S, map_app, list_sum_app, IH.
  cbn [map list_sum fold_right Nat.add].
  destruct (Z.leb_spec 0 x); destruct (Z.ltb_spec x (Z.of_nat n));
    destruct (Z.ltb_spec x (Z.of_nat (S n)));
    destruct (Z.eq_dec x (Z.of_nat n)); cbn [andb]; lia.
Qed.

Lemma list_sum_map_add (f g : nat -> nat) (l : list nat) :
  list_sum (map (fun v => (f v + g v)%nat) l)
  = (list_sum (map f l) + list_sum (map g l))%nat.
Proof. induction l as [|x l IH]; simpl; [reflexivity|]. rewrite IH. lia. Qed.

Lemma list_sum_bins (l : list Z) (n : nat) :
  Forall (fun x => (0 <= x < Z.of_nat n)%Z) l ->
  list_sum (map (fun v => count_occ Z.eq_dec l (Z.of_nat v)) (seq 0 n))
  = length l.
Proof.
  induction l as [|x l IH]; intros Hall.
  - simpl. induction (seq 0 n) as [|y s IHs]; simpl; [reflexivity|exact IHs].
  - inversion Hall as [|? ? Hx Hl]; subst.
    rewrite (map_ext
      (fun v => count_occ Z.eq_dec (x :: l) (Z.of_nat v))
      (fun v => ((if Z.eq_dec x (Z.of_nat v) then 1 else 0)
                 + count_occ Z.eq_dec l (Z.of_nat v))%nat)).
    + rewrite list_sum_map_add, list_sum_indicator, (IH Hl).
      destruct (Z.leb_spec 0 x); destruct (Z.ltb_spec x (Z.of_nat n));
        simpl; lia.
    + intros v. simpl. destruct (Z.eq_dec x (Z.of_nat v)); lia.
Qed.

Lemma gray_values_range (bgr : ndarray pixel) :
  Forall (Forall uint8_pixel) bgr ->
  Forall (fun x => (0 <= x < Z.of_nat histSize)%Z)
         (concat (amap COLOR_BGR2GRAY bgr)).
Proof.
  intros Hall. apply Forall_concat. unfold amap.
  apply Forall_map. eapply Forall_impl; [|exact Hall].
  intros r Hr. apply Forall_map. eapply Forall_impl; [|exact Hr].
  intros p Hp. apply gray_of_bgr_range in Hp. unfold histSize.
  unfold COLOR_BGR2GRAY. lia.
Qed.

Lemma length_concat_pos {A : Type} (x : ndarray A) :
  (0 < rows x)%nat -> (0 < cols x)%nat -> (0 < length (concat x))%nat.
Proof.
  destruct x as [|r x]; simpl; intros Hr Hc; [lia|].
  rewrite length_app. lia.
Qed.

(** The histogram of a decoded image counts every pixel once. *)
Lemma calcHist_total (bgr : ndarray pixel) :
  valid_image bgr ->
  list_sum (calcHist (amap COLOR_BGR2GRAY bgr))
  = length (concat (amap COLOR_BGR2GRAY bgr)) /\
  (0 < list_sum (calcHist (amap COLOR_BGR2GRAY bgr)))%nat.
Proof.
  intros (Hr & Hc & _ & Hpx).
  assert (E : list_sum (calcHist (amap COLOR_BGR2GRAY bgr))
              = length (concat (amap COLOR_BGR2GRAY bgr))).
  { unfold calcHist. apply list_sum_bins. apply gray_values_range. exact Hpx. }
  split; [exact E|]. rewrite E.
  apply length_concat_pos; [rewrite rows_amap|rewrite cols_amap]; assumption.
Qed.

(** ** Constant channels and flat images *)

Lemma neighbour_const (bt : BorderType) (h w : nat) (x : ndarray R) (c : R)
  (i j : nat) (di dj : Z) :
  has_shape h w x -> (0 < h)%nat -> (0 < w)%nat ->
  (forall i' j', (i' < h)%nat -> (j' < w)%nat -> item 0 x i' j' = c) ->
  neighbour bt x i j di dj = c.
Proof.
  intros Hs Hh Hw Hc. unfold neighbour.
  rewrite (has_shape_rows h w x Hs), (has_shape_cols h w x Hs Hh).
  apply Hc; apply borderInterpolate_lt; assumption.
Qed.


Lemma laplacian4_const (h w : nat) (x : ndarray R) (c : R) (i j : nat) :
  has_shape h w x -> (0 < h)%nat -> (0 < w)%nat ->
  (forall i' j', (i' < h)%nat -> (j' < w)%nat -> item 0 x i' j' = c) ->
  laplacian4 x i j = 0.
Proof.
  intros Hs Hh Hw Hc. unfold laplacian4.
  rewrite !(neighbour_const _ h w x c) by assumption. lra.
Qed.

Lemma neighbour_centre (bt : BorderType) (x : ndarray R) (i j : nat) :
  (i < rows x)%nat -> (j < cols x)%nat ->
  neighbour bt x i j 0 0 = item 0 x i j.
Proof.
  intros Hi Hj. unfold neighbour.
  rewrite !borderInterpolate_inside by lia.
  rewrite !Z.add_0_r, !Nat2Z.id. reflexivity.
Qed.

Lemma flat_image_item (p d : pixel) (h w : nat) (img : ndarray pixel)
  (i j : nat) :
  flat_image p img -> has_shape h w img -> (i < h)%nat -> (j < w)%nat ->
  item d img i j = p.
Proof.
  intros Hflat Hs Hi Hj. unfold item, flat_image in *.
  assert (Hr := has_shape_row h w img i Hs Hi).
  destruct Hs as [Hh _]. rewrite Forall_forall in Hflat.
  assert (Hin : In (nth i img []) img) by (apply nth_In; lia).
  apply Hflat in Hin. rewrite Forall_forall in Hin.
  apply Hin. apply nth_In. lia.
Qed.

Lemma count_occ_const (g v : Z) (l : list Z) :
  Forall (fun x => x = g) l ->
  count_occ Z.eq_dec l v = if Z.eq_dec g v then length l else 0%nat.
Proof.
  induction l as [|x l IH]; intros Hall; simpl.
  - destruct (Z.eq_dec g v); reflexivity.
  - inversion Hall as [|? ? Hx Hl]; subst. rewrite (IH Hl).
    destruct (Z.eq_dec g v); reflexivity.
Qed.

Lemma flat_gray_values (p : pixel) (bgr : ndarray pixel) :
  flat_image p bgr ->
  Forall (fun x => x = COLOR_BGR2GRAY p) (concat (amap COLOR_BGR2GRAY bgr)).
Proof.
  intros Hflat. apply Forall_concat. unfold amap.
  apply Forall_map. eapply Forall_impl; [|exact Hflat].
  intros r Hr. apply Forall_map. eapply Forall_impl; [|exact Hr].
  intros x ->. reflexivity.
Qed.

Lemma length_concat_shape {A : Type} (h w : nat) (x : ndarray A) :
  has_shape h w x -> length (concat x) = (h * w)%nat.
Proof.
  intros [Hh Hw]. subst h.
  induction x as [|r x IH]; simpl; [reflexivity|].
  inversion Hw as [|? ? Hr Hx]; subst.
  rewrite length_app, (IH Hx). reflexivity.
Qed.

Lemma shape_of_has_shape {A : Type} (h w : nat) (x : ndarray A) :
  has_shape h w x -> (0 < h)%nat -> shape x = (h, w).
Proof.
  intros Hs Hh. unfold shape.
  rewrite (has_shape_rows h w x Hs), (has_shape_cols h w x Hs Hh).
  reflexivity.
Qed.

Lemma contrast_nonneg (k : Z) (x : ndarray R) (i j : nat) :
  0 <= contrast k x i j.
Proof. apply Rabs_pos. Qed.

Lemma curvature_nonneg (x : ndarray R) (i j : nat) : 0 <= curvature x i j.
Proof. apply Rabs_pos. Qed.

Lemma valid_flat4x4 : valid_image flat4x4.
Proof.
  unfold valid_image, flat4x4, gray128, uint8_pixel, uint8. simpl.
  repeat split; repeat constructor; unfold chan0, chan1, chan2; simpl; lia.
Qed.

Lemma valid_flat1x1 : valid_image flat1x1.
Proof.
  unfold valid_image, flat1x1, gray128, uint8_pixel, uint8. simpl.
  repeat split; repeat constructor; unfold chan0, chan1, chan2; simpl; lia.
Qed.

Lemma valid_checker2x2 : valid_image checker2x2.
Proof.
  unfold valid_image, checker2x2, black, white, uint8_pixel, uint8. simpl.
  repeat split; repeat constructor; unfold chan0, chan1, chan2; simpl; lia.
Qed.

Section Claims.

Variable rgb2lab_px : pixel -> lab_pixel.

Lemma lab_channel_shape (bgr : ndarray pixel) :
  valid_image bgr ->
  has_shape (rows bgr) (cols bgr) (L_of rgb2lab_px bgr) /\
  has_shape (rows bgr) (cols bgr) (a_of rgb2lab_px bgr) /\
  has_shape (rows bgr) (cols bgr) (b_of rgb2lab_px bgr).
Proof.
  intros Hv.
  unfold L_of, a_of, b_of, lab_of, rgb2lab.
  split; [|split]; shape_tac.
Qed.

(** Each Lab channel of a flat image is constant. *)
Lemma lab_channel_flat (p : pixel) (bgr : ndarray pixel) (i j : nat) :
  valid_image bgr -> flat_image p bgr ->
  (i < rows bgr)%nat -> (j < cols bgr)%nat ->
  item 0 (L_of rgb2lab_px bgr) i j = chan0 (rgb2lab_px (COLOR_BGR2RGB p)) /\
  item 0 (a_of rgb2lab_px bgr) i j = chan1 (rgb2lab_px (COLOR_BGR2RGB p)) /\
  item 0 (b_of rgb2lab_px bgr) i j = chan2 (rgb2lab_px (COLOR_BGR2RGB p)).
Proof.
  intros Hv Hflat Hi Hj.
  assert (Hs := valid_image_shape bgr Hv).
  unfold L_of, a_of, b_of, lab_of, rgb2lab.
  rewrite !(item_amap _ (0, 0, 0) 0 (rows bgr) (cols bgr))
    by (try assumption; shape_tac).
  rewrite !(item_amap _ (0, 0, 0)%Z (0, 0, 0) (rows bgr) (cols bgr))
    by (try assumption; shape_tac).
  rewrite !(item_amap _ (0, 0, 0)%Z (0, 0, 0)%Z (rows bgr) (cols bgr))
    by (try assumption; shape_tac).
  rewrite (flat_image_item p _ (rows bgr) (cols bgr)) by assumption.
  repeat split.
Qed.

Lemma entropy_const_unfold (bgr : ndarray pixel) :
  valid_image bgr ->
  entropy_const bgr =
  - sum_upto histSize (fun v =>
      let p := INR (count_occ Z.eq_dec (concat (amap COLOR_BGR2GRAY bgr))
                              (Z.of_nat v))
               / INR (rows bgr * cols bgr) in
      p * log2 (fadd32 p floor32)).
Proof.
  intros Hv. unfold entropy_const.
  rewrite entropy_of_hist_unfold.
  destruct (calcHist_total bgr Hv) as [Htot _]. rewrite Htot.
  rewrite (length_concat_shape (rows bgr) (cols bgr))
    by (apply has_shape_amap, valid_image_shape; exact Hv).
  unfold calcHist, sum_upto. rewrite map_map. reflexivity.
Qed.

Lemma entropy_const_nonneg (bgr : ndarray pixel) :
  valid_image bgr -> 0 <= entropy_const bgr.
Proof.
  intros Hv. apply entropy_nonneg. apply calcHist_total. exact Hv.
Qed.

Lemma entropy_const_flat (p : pixel) (bgr : ndarray pixel) :
  valid_image bgr -> flat_image p bgr -> entropy_const bgr = 0.
Proof.
  intros Hv Hflat. destruct (calcHist_total bgr Hv) as [Htot Hpos].
  apply entropy_single_bin; [exact Hpos|].
  intros c Hc. rewrite Htot. unfold calcHist in Hc.
  apply in_map_iff in Hc. destruct Hc as (v & <- & _).
  rewrite (count_occ_const (COLOR_BGR2GRAY p))
    by (apply flat_gray_values; exact Hflat).
  destruct (Z.eq_dec (COLOR_BGR2GRAY p) (Z.of_nat v)); [now right|now left].
Qed.

(** A successful call on a decoded image, pixel by pixel. *)
Lemma compute_success (disk : filesystem) (image_path : string)
  (kernel_size : Z) (weights : list R) (bgr : ndarray pixel)
  (q : ndarray R) (rgb : ndarray pixel) :
  disk image_path = Some bgr -> valid_image bgr ->
  compute_aesthetic_charge rgb2lab_px disk image_path kernel_size weights
    = inr (q, rgb) ->
  exists w1 w2 w3 w4 w5,
    weights = [w1; w2; w3; w4; w5] /\ (0 < kernel_size)%Z /\
    rgb = amap COLOR_BGR2RGB bgr /\
    has_shape (rows bgr) (cols bgr) q /\
    forall i j : nat, (i < rows bgr)%nat -> (j < cols bgr)%nat ->
      item 0 q i j =
      w1 * contrast kernel_size (L_of rgb2lab_px bgr) i j
      + w2 * contrast kernel_size (a_of rgb2lab_px bgr) i j
      + w3 * contrast kernel_size (b_of rgb2lab_px bgr) i j
      + w4 * curvature (L_of rgb2lab_px bgr) i j
      + w5 * entropy_const bgr.
Proof.
  intros Hdisk Hv Hq.
  destruct (compute_success_inv _ _ _ _ _ _ Hq)
    as (bgr' & w1 & w2 & w3 & w4 & w5 & E & _ & Hk & ->).
  destruct (compute_pointwise rgb2lab_px disk image_path kernel_size
              w1 w2 w3 w4 w5 bgr Hdisk Hv Hk) as (q0 & E0 & Hs & Hpt).
  rewrite E0 in Hq. inversion Hq; subst q0 rgb.
  exists w1, w2, w3, w4, w5.
  split; [reflexivity|]. split; [exact Hk|]. split; [reflexivity|].
  split; [exact Hs|exact Hpt].
Qed.

End Claims.

(** * The claims of the specification *)

Section Specification.

Variable rgb2lab_px : pixel -> lab_pixel.

(** Claim C1.  For a readable, valid image, a positive kernel size [k] and
    five weights, the call returns the field [q] together with the RGB
    image, and at every pixel [q] is
    [w1*|L - mean L| + w2*|a - mean a| + w3*|b - mean b|
     + w4*|Laplacian L| + w5*entropy], where [mean] averages the [k] x [k]
    window and [entropy] is the histogram entropy of the whole image. *)
Theorem charge_formula (disk : filesystem) (image_path : string)
  (kernel_size : Z) (w1 w2 w3 w4 w5 : R) (bgr : ndarray pixel) :
  disk image_path = Some bgr -> valid_image bgr -> (0 < kernel_size)%Z ->
  exists q : ndarray R,
    compute_aesthetic_charge rgb2lab_px disk image_path kernel_size
      [w1; w2; w3; w4; w5] = inr (q, amap COLOR_BGR2RGB bgr) /\
    forall i j : nat, (i < rows bgr)%nat -> (j < cols bgr)%nat ->
      let L := L_of rgb2lab_px bgr in
      let a := a_of rgb2lab_px bgr in
      let b := b_of rgb2lab_px bgr in
      let k := Z.to_nat kernel_size in
      item 0 q i j =
      w1 * Rabs (item 0 L i j - local_mean k L i j)
      + w2 * Rabs (item 0 a i j - local_mean k a i j)
      + w3 * Rabs (item 0 b i j - local_mean k b i j)
      + w4 * Rabs (laplacian4 L i j)
      + w5 * entropy_const bgr.
Proof.
  intros Hdisk Hv Hk.
  destruct (compute_pointwise rgb2lab_px disk image_path kernel_size
              w1 w2 w3 w4 w5 bgr Hdisk Hv Hk) as (q & E & _ & Hpt).
  exists q. split; [exact E|].
  intros i j Hi Hj. cbv zeta. rewrite (Hpt i j Hi Hj). reflexivity.
Qed.

(** Claim C3.  Every call that succeeds on a valid image returns a field
    of the image's height and width, and with five non-negative weights
    every value of the field is non-negative. *)
Theorem field_shape_and_sign (disk : filesystem) (image_path : string)
  (kernel_size : Z) (weights : list R) (bgr : ndarray pixel)
  (q : ndarray R) (rgb : ndarray pixel) :
  disk image_path = Some bgr -> valid_image bgr ->
  Forall (fun w => 0 <= w) weights ->
  compute_aesthetic_charge rgb2lab_px disk image_path kernel_size weights
    = inr (q, rgb) ->
  shape q = shape bgr /\
  Forall (fun r => length r = cols bgr) q /\
  forall i j : nat, (i < rows bgr)%nat -> (j < cols bgr)%nat ->
    0 <= item 0 q i j.
Proof.
  intros Hdisk Hv Hw Hq.
  destruct (compute_success rgb2lab_px _ _ _ _ _ _ _ Hdisk Hv Hq)
    as (w1 & w2 & w3 & w4 & w5 & -> & Hk & _ & Hs & Hpt).
  assert (Hrows : (0 < rows bgr)%nat) by apply Hv.
  split; [|split].
  - rewrite (shape_of_has_shape _ _ _ Hs Hrows). reflexivity.
  - apply Hs.
  - intros i j Hi Hj. rewrite (Hpt i j Hi Hj).
    repeat match goal with
           | H : Forall _ (_ :: _) |- _ => inversion H; clear H; subst
           end.
    assert (Ne := entropy_const_nonneg bgr Hv).
    assert (NL := contrast_nonneg kernel_size (L_of rgb2lab_px bgr) i j).
    assert (Na := contrast_nonneg kernel_size (a_of rgb2lab_px bgr) i j).
    assert (Nb := contrast_nonneg kernel_size (b_of rgb2lab_px bgr) i j).
    assert (NC := curvature_nonneg (L_of rgb2lab_px bgr) i j).
    repeat apply Rplus_le_le_0_compat; apply Rmult_le_pos; assumption.
Qed.

(** Claim C5.  For a fixed image the entropy contribution to [q] is the
    same at every pixel: [w5] times one scalar.  That scalar is the base-2
    Shannon entropy of the normalised 256-bin histogram with the floor added
    inside the logarithm, and it is zero exactly when a single bin of the
    histogram is occupied. *)
Theorem entropy_constant_field (disk : filesystem) (image_path : string)
  (kernel_size : Z) (w1 w2 w3 w4 w5 : R) (bgr : ndarray pixel)
  (q : ndarray R) (rgb : ndarray pixel) :
  disk image_path = Some bgr -> valid_image bgr ->
  compute_aesthetic_charge rgb2lab_px disk image_path kernel_size
    [w1; w2; w3; w4; w5] = inr (q, rgb) ->
  let gray := amap COLOR_BGR2GRAY bgr in
  let H := entropy_const bgr in
  (forall i j : nat, (i < rows bgr)%nat -> (j < cols bgr)%nat ->
     item 0 q i j
     - (w1 * contrast kernel_size (L_of rgb2lab_px bgr) i j
        + w2 * contrast kernel_size (a_of rgb2lab_px bgr) i j
        + w3 * contrast kernel_size (b_of rgb2lab_px bgr) i j
        + w4 * curvature (L_of rgb2lab_px bgr) i j)
     = w5 * H) /\
  (H = 0 <-> occupied (calcHist gray) = 1%nat) /\
  H = - sum_upto 256 (fun v =>
        let p := INR (count_occ Z.eq_dec (concat gray) (Z.of_nat v))
                 / INR (rows bgr * cols bgr) in
        p * log2 (fadd32 p floor32)).
Proof.
  intros Hdisk Hv Hq gray H.
  destruct (compute_success rgb2lab_px _ _ _ _ _ _ _ Hdisk Hv Hq)
    as (v1 & v2 & v3 & v4 & v5 & Hw & Hk & _ & Hs & Hpt).
  inversion Hw; subst v1 v2 v3 v4 v5.
  split; [|split].
  - intros i j Hi Hj. rewrite (Hpt i j Hi Hj). unfold H. lra.
  - unfold H, entropy_const. apply entropy_zero_iff.
    apply calcHist_total. exact Hv.
  - unfold H. rewrite (entropy_const_unfold bgr Hv). reflexivity.
Qed.

(** Claim C8.  With the image and the other four weights fixed, raising
    one weight never lowers the field at any pixel. *)
Theorem weight_monotone (disk : filesystem) (image_path : string)
  (kernel_size : Z) (bgr : ndarray pixel) (n : nat)
  (weights weights' : list R) (q q' : ndarray R) (rgb rgb' : ndarray pixel) :
  disk image_path = Some bgr -> valid_image bgr ->
  (n < 5)%nat ->
  (forall m : nat, m <> n -> nth m weights 0 = nth m weights' 0) ->
  nth n weights 0 <= nth n weights' 0 ->
  compute_aesthetic_charge rgb2lab_px disk image_path kernel_size weights
    = inr (q, rgb) ->
  compute_aesthetic_charge rgb2lab_px disk image_path kernel_size weights'
    = inr (q', rgb') ->
  forall i j : nat, (i < rows bgr)%nat -> (j < cols bgr)%nat ->
    item 0 q i j <= item 0 q' i j.
Proof.
  intros Hdisk Hv Hn Hsame Hle Hq Hq' i j Hi Hj.
  destruct (compute_success rgb2lab_px _ _ _ _ _ _ _ Hdisk Hv Hq)
    as (w1 & w2 & w3 & w4 & w5 & -> & Hk & _ & _ & Hpt).
  destruct (compute_success rgb2lab_px _ _ _ _ _ _ _ Hdisk Hv Hq')
    as (v1 & v2 & v3 & v4 & v5 & -> & _ & _ & _ & Hpt').
  rewrite (Hpt i j Hi Hj), (Hpt' i j Hi Hj).
  assert (He := entropy_const_nonneg bgr Hv).
  assert (H1 := contrast_nonneg kernel_size (L_of rgb2lab_px bgr) i j).
  assert (H2 := contrast_nonneg kernel_size (a_of rgb2lab_px bgr) i j).
  assert (H3 := contrast_nonneg kernel_size (b_of rgb2lab_px bgr) i j).
  assert (H4 := curvature_nonneg (L_of rgb2lab_px bgr) i j).
  assert (E0 := Hsame 0%nat). assert (E1 := Hsame 1%nat).
  assert (E2 := Hsame 2%nat). assert (E3 := Hsame 3%nat).
  assert (E4 := Hsame 4%nat). simpl in E0, E1, E2, E3, E4.
  destruct n as [|[|[|[|[|n]]]]]; simpl in Hle; try lia;
    [ rewrite <- (E1 ltac:(lia)), <- (E2 ltac:(lia)), <- (E3 ltac:(lia)),
        <- (E4 ltac:(lia))
    | rewrite <- (E0 ltac:(lia)), <- (E2 ltac:(lia)), <- (E3 ltac:(lia)),
        <- (E4 ltac:(lia))
    | rewrite <- (E0 ltac:(lia)), <- (E1 ltac:(lia)), <- (E3 ltac:(lia)),
        <- (E4 ltac:(lia))
    | rewrite <- (E0 ltac:(lia)), <- (E1 ltac:(lia)), <- (E2 ltac:(lia)),
        <- (E4 ltac:(lia))
    | rewrite <- (E0 ltac:(lia)), <- (E1 ltac:(lia)), <- (E2 ltac:(lia)),
        <- (E3 ltac:(lia)) ];
    nra.
Qed.

End Specification.

Section Filters.

Variable rgb2lab_px : pixel -> lab_pixel.


(** Claim C10.  The curvature map is the absolute value of the 4-neighbour
    Laplacian: [cv2.Laplacian] correlates with the aperture-1 kernel
    [[0,1,0],[1,-4,1],[0,1,0]], and with weights [(0,0,0,1,0)] the field is
    [|up + left + right + down - 4*centre|] of the L channel alone, for
    every kernel size. *)
Theorem curvature_stencil (disk : filesystem) (image_path : string)
  (kernel_size : Z) (bgr : ndarray pixel) :
  disk image_path = Some bgr -> valid_image bgr -> (0 < kernel_size)%Z ->
  (forall src : ndarray R,
     Laplacian src =
     filter2D src [[0; 1; 0]; [1; -4; 1]; [0; 1; 0]]) /\
  exists q : ndarray R,
    compute_aesthetic_charge rgb2lab_px disk image_path kernel_size
      [0; 0; 0; 1; 0] = inr (q, amap COLOR_BGR2RGB bgr) /\
    forall i j : nat, (i < rows bgr)%nat -> (j < cols bgr)%nat ->
      let L := L_of rgb2lab_px bgr in
      let up :=
        borderInterpolate (Z.of_nat i - 1) (rows bgr) BORDER_REFLECT_101 in
      let down :=
        borderInterpolate (Z.of_nat i + 1) (rows bgr) BORDER_REFLECT_101 in
      let left :=
        borderInterpolate (Z.of_nat j - 1) (cols bgr) BORDER_REFLECT_101 in
      let right :=
        borderInterpolate (Z.of_nat j + 1) (cols bgr) BORDER_REFLECT_101 in
      item 0 q i j =
      Rabs (item 0 L up j + item 0 L i left + item 0 L i right
            + item 0 L down j - 4 * item 0 L i j).
Proof.
  intros Hdisk Hv Hk.
  assert (Hrows : (0 < rows bgr)%nat) by apply Hv.
  split; [reflexivity|].
  destruct (compute_pointwise rgb2lab_px disk image_path kernel_size
              0 0 0 1 0 bgr Hdisk Hv Hk) as (q & E & _ & Hpt).
  exists q. split; [exact E|].
  intros i j Hi Hj. cbv zeta. rewrite (Hpt i j Hi Hj).
  destruct (lab_channel_shape rgb2lab_px bgr Hv) as (SL & _).
  unfold curvature, laplacian4, neighbour.
  rewrite (has_shape_rows _ _ _ SL), (has_shape_cols _ _ _ SL Hrows).
  rewrite !Z.add_0_r.
  rewrite !(borderInterpolate_inside (Z.of_nat i)),
          !(borderInterpolate_inside (Z.of_nat j)) by lia.
  rewrite !Nat2Z.id.
  replace (Z.of_nat i + -1)%Z with (Z.of_nat i - 1)%Z by lia.
  replace (Z.of_nat j + -1)%Z with (Z.of_nat j - 1)%Z by lia.
  rewrite !Rmult_0_l, Rmult_1_l, !Rplus_0_l, Rplus_0_r. reflexivity.
Qed.

(** Claim C2, as the code has it.  No parameter is checked before the
    work starts and no [InvalidParameter] exists.  An unreadable image is
    reported first, whatever the parameters.  A negative kernel size fails
    in [np.ones] with [ValueError], a zero one in [cv2.filter2D] with
    [cv2.error]; every positive kernel size, even or odd, is accepted.  A
    weight sequence of a length other than five fails with [ValueError]
    at the unpacking, after the maps were computed; five weights of any
    sign are accepted and a field is returned. *)
Theorem parameters_not_validated (disk : filesystem) (image_path : string)
  (kernel_size : Z) (weights : list R) (bgr : ndarray pixel) :
  disk image_path = Some bgr -> valid_image bgr ->
  let call := compute_aesthetic_charge rgb2lab_px in
  (forall missing : filesystem, missing image_path = None ->
     call missing image_path kernel_size weights
     = raise cv2_error cvtColor_assert) /\
  ((kernel_size < 0)%Z ->
     call disk image_path kernel_size weights
     = raise ValueError "negative dimensions are not allowed") /\
  (kernel_size = 0%Z ->
     call disk image_path kernel_size weights
     = raise cv2_error filter2D_assert) /\
  ((0 < kernel_size)%Z -> length weights <> 5%nat ->
     exists msg : string,
       call disk image_path kernel_size weights = raise ValueError msg) /\
  ((0 < kernel_size)%Z -> length weights = 5%nat ->
     exists q : ndarray R,
       call disk image_path kernel_size weights
       = inr (q, amap COLOR_BGR2RGB bgr)).
Proof.
  intros Hdisk Hv call.
  assert (Hne := valid_image_not_empty bgr Hv).
  split; [|split; [|split; [|split]]].
  - intros missing Hm. apply compute_unreadable. left. exact Hm.
  - intros Hk. apply (compute_negative_kernel _ _ _ _ _ bgr); assumption.
  - intros ->. apply (compute_zero_kernel _ _ _ _ bgr); assumption.
  - intros Hk Hlen. eexists.
    apply (compute_bad_weights _ _ _ _ _ bgr); assumption.
  - intros Hk Hlen.
    destruct weights as [|w1 [|w2 [|w3 [|w4 [|w5 [|w6 l]]]]]];
      try discriminate Hlen.
    destruct (compute_pointwise rgb2lab_px disk image_path kernel_size
                w1 w2 w3 w4 w5 bgr Hdisk Hv Hk) as (q & E & _).
    exists q. exact E.
Qed.

(** Claim C7, as the code has it.  When [cv2.imread] finds no decodable
    image at the path (or hands back an empty array), the call fails in
    [cv2.cvtColor] with OpenCV's own [cv2.error], whose message is the
    library's assertion on its source argument; no field is returned. *)
Theorem unreadable_image_fails (disk : filesystem) (image_path : string)
  (kernel_size : Z) (weights : list R) :
  disk image_path = None \/
  (exists img, disk image_path = Some img /\ is_empty img = true) ->
  compute_aesthetic_charge rgb2lab_px disk image_path kernel_size weights
    = inl (Raise "cv2.error" cvtColor_assert) /\
  forall r : ndarray R * ndarray pixel,
    compute_aesthetic_charge rgb2lab_px disk image_path kernel_size weights
    <> inr r.
Proof.
  intros Hbad.
  assert (E := compute_unreadable rgb2lab_px disk image_path kernel_size
                 weights Hbad).
  split; [exact E|]. intros r Hr. rewrite E in Hr. discriminate.
Qed.

(** ** The call as an effectful program *)

Lemma py_bind_lift {A B : Type} (r : result A) (k : A -> py B)
  (k' : A -> result B) (w : world) :
  (forall x : A, k x w = (w, k' x)) ->
  py_bind (lift r) k w = (w, bind r k').
Proof.
  intros Hk. unfold py_bind, lift. destruct r as [e|x]; [reflexivity|].
  apply Hk.
Qed.

(** Running the program in a world reads the file once and then computes
    [compute_aesthetic_charge] on the files of that world. *)
Lemma compute_py_run (image_path : string) (kernel_size : Z)
  (weights : list R) (w : world) :
  compute_aesthetic_charge_py rgb2lab_px image_path kernel_size weights w
  = (World (files w) (io_log w ++ [ImreadEvent image_path]),
     compute_aesthetic_charge rgb2lab_px (files w) image_path kernel_size
       weights).
Proof.
  unfold compute_aesthetic_charge_py, compute_aesthetic_charge.
  unfold py_bind at 1. unfold cv2_imread. cbv beta iota.
  unfold ret at 1.
  apply py_bind_lift; intros rgb.
  apply py_bind_lift; intros ones.
  apply py_bind_lift; intros L_mean.
  apply py_bind_lift; intros a_mean.
  apply py_bind_lift; intros b_mean.
  apply py_bind_lift; intros L_lap.
  apply py_bind_lift; intros gray.
  apply py_bind_lift; intros ws.
  destruct ws as [[[[w1 w2] w3] w4] w5]. reflexivity.
Qed.

Lemma plt_run (call : pyplot_call) (w : world) :
  plt call w = (World (files w) (io_log w ++ [PyplotEvent call]), ret tt).
Proof. reflexivity. Qed.

(** The display is driven by [visualize_aesthetic_charge] alone: its
    eleven pyplot calls, in the order of the source, and no read. *)
Lemma visualize_run (q : ndarray R) (rgb : ndarray pixel) (w : world) :
  visualize_aesthetic_charge q rgb w
  = (World (files w)
       (io_log w ++
        map PyplotEvent
          [plt_figure (12, 6)%Z;
           plt_subplot 1 2 1; plt_imshow rgb; plt_title "Original Image";
           plt_axis "off";
           plt_subplot 1 2 2; plt_imshow_cmap q "inferno";
           plt_title "Aesthetic Charge Map"; plt_axis "off";
           plt_tight_layout; plt_show]),
     ret tt).
Proof.
  unfold visualize_aesthetic_charge, py_bind, plt, perform. simpl.
  rewrite <- !app_assoc. reflexivity.
Qed.

Lemma display_events_app (l m : list io_event) :
  display_events (l ++ m) = display_events l ++ display_events m.
Proof. unfold display_events. apply flat_map_app. Qed.

Lemma disk_reads_app (l m : list io_event) :
  disk_reads (l ++ m) = disk_reads l ++ disk_reads m.
Proof. unfold disk_reads. apply flat_map_app. Qed.

(** Claim C6, as the code has it.  The call takes a file path, not a
    decoded image.  Run in any world, it performs one I/O action, the read
    [cv2.imread(image_path)]: the log of the world grows by that event, so
    the list of display calls is the one from before and the files are
    untouched.  Its outcome is [compute_aesthetic_charge] of the files, and
    it depends on the world through the file at [image_path] only: two
    worlds with the same file there give the same outcome, whatever else
    they differ in, and so does a second call made right after the first. *)
Theorem one_read_no_display_same_result (w1 w2 : world)
  (image_path : string) (kernel_size : Z) (weights : list R) :
  files w1 image_path = files w2 image_path ->
  let call :=
    compute_aesthetic_charge_py rgb2lab_px image_path kernel_size weights in
  let after := fst (call w1) in
  files after = files w1 /\
  io_log after = io_log w1 ++ [ImreadEvent image_path] /\
  disk_reads (io_log after) = disk_reads (io_log w1) ++ [image_path] /\
  display_events (io_log after) = display_events (io_log w1) /\
  snd (call w1)
  = compute_aesthetic_charge rgb2lab_px (files w1) image_path kernel_size
      weights /\
  snd (call w1) = snd (call w2) /\
  snd (call after) = snd (call w1).
Proof.
  intros Hsame call after. unfold after, call.
  rewrite !compute_py_run. cbn [fst snd files io_log].
  split; [reflexivity|]. split; [reflexivity|].
  split; [rewrite disk_reads_app; reflexivity|].
  split; [rewrite display_events_app; apply app_nil_r|].
  split; [reflexivity|].
  split; [|reflexivity].
  unfold compute_aesthetic_charge, imread. rewrite Hsame. reflexivity.
Qed.

End Filters.

(** * Concrete instances *)

Lemma charge_formula_witness :
  disk_with checker2x2 "image.png" = Some checker2x2 /\
  valid_image checker2x2 /\ (0 < 3)%Z /\
  exists q : ndarray R,
    compute_aesthetic_charge rgb2lab_D65 (disk_with checker2x2) "image.png" 3
      [1; 1; 1; 1 / 2; 3 / 10] = inr (q, amap COLOR_BGR2RGB checker2x2) /\
    forall i j : nat, (i < rows checker2x2)%nat -> (j < cols checker2x2)%nat ->
      let L := L_of rgb2lab_D65 checker2x2 in
      let a := a_of rgb2lab_D65 checker2x2 in
      let b := b_of rgb2lab_D65 checker2x2 in
      let k := Z.to_nat 3 in
      item 0 q i j =
      1 * Rabs (item 0 L i j - local_mean k L i j)
      + 1 * Rabs (item 0 a i j - local_mean k a i j)
      + 1 * Rabs (item 0 b i j - local_mean k b i j)
      + 1 / 2 * Rabs (laplacian4 L i j)
      + 3 / 10 * entropy_const checker2x2.
Proof.
  split; [reflexivity|]. split; [exact valid_checker2x2|]. split; [lia|].
  apply (charge_formula rgb2lab_D65 (disk_with checker2x2) "image.png" 3
           1 1 1 (1 / 2) (3 / 10) checker2x2);
    [reflexivity|exact valid_checker2x2|lia].
Defined.

Lemma field_shape_and_sign_witness :
  exists (q : ndarray R) (rgb : ndarray pixel),
    disk_with checker2x2 "image.png" = Some checker2x2 /\
    valid_image checker2x2 /\
    Forall (fun w => 0 <= w) default_weights /\
    compute_aesthetic_charge rgb2lab_D65 (disk_with checker2x2) "image.png" 3
      default_weights = inr (q, rgb) /\
    shape q = shape checker2x2 /\
    Forall (fun r => length r = cols checker2x2) q /\
    forall i j : nat, (i < rows checker2x2)%nat -> (j < cols checker2x2)%nat ->
      0 <= item 0 q i j.
Proof.
  destruct (compute_pointwise rgb2lab_D65 (disk_with checker2x2) "image.png" 3
              1 1 1 (1 / 2) (3 / 10) checker2x2 eq_refl valid_checker2x2
              eq_refl) as (q & E & _).
  assert (Hw : Forall (fun w => 0 <= w) default_weights)
    by (unfold default_weights; repeat constructor; lra).
  exists q, (amap COLOR_BGR2RGB checker2x2).
  split; [reflexivity|]. split; [exact valid_checker2x2|].
  split; [exact Hw|]. split; [exact E|].
  exact (field_shape_and_sign rgb2lab_D65 (disk_with checker2x2) "image.png" 3
           default_weights checker2x2 q (amap COLOR_BGR2RGB checker2x2)
           eq_refl valid_checker2x2 Hw E).
Defined.

Lemma entropy_constant_field_witness :
  exists (q : ndarray R) (rgb : ndarray pixel),
    disk_with checker2x2 "image.png" = Some checker2x2 /\
    valid_image checker2x2 /\
    compute_aesthetic_charge rgb2lab_D65 (disk_with checker2x2) "image.png" 3
      [1; 1; 1; 1 / 2; 3 / 10] = inr (q, rgb) /\
    let gray := amap COLOR_BGR2GRAY checker2x2 in
    let H := entropy_const checker2x2 in
    (forall i j : nat, (i < rows checker2x2)%nat -> (j < cols checker2x2)%nat ->
       item 0 q i j
       - (1 * contrast 3 (L_of rgb2lab_D65 checker2x2) i j
          + 1 * contrast 3 (a_of rgb2lab_D65 checker2x2) i j
          + 1 * contrast 3 (b_of rgb2lab_D65 checker2x2) i j
          + 1 / 2 * curvature (L_of rgb2lab_D65 checker2x2) i j)
       = 3 / 10 * H) /\
    (H = 0 <-> occupied (calcHist gray) = 1%nat) /\
    H = - sum_upto 256 (fun v =>
          let p := INR (count_occ Z.eq_dec (concat gray) (Z.of_nat v))
                   / INR (rows checker2x2 * cols checker2x2) in
          p * log2 (fadd32 p floor32)).
Proof.
  destruct (compute_pointwise rgb2lab_D65 (disk_with checker2x2) "image.png" 3
              1 1 1 (1 / 2) (3 / 10) checker2x2 eq_refl valid_checker2x2
              eq_refl) as (q & E & _).
  exists q, (amap COLOR_BGR2RGB checker2x2).
  split; [reflexivity|]. split; [exact valid_checker2x2|].
  split; [exact E|].
  exact (entropy_constant_field rgb2lab_D65 (disk_with checker2x2)
           "image.png" 3 1 1 1 (1 / 2) (3 / 10) checker2x2 q
           (amap COLOR_BGR2RGB checker2x2) eq_refl valid_checker2x2 E).
Defined.

Lemma weight_monotone_witness :
  exists (q q' : ndarray R) (rgb rgb' : ndarray pixel),
    disk_with checker2x2 "image.png" = Some checker2x2 /\
    valid_image checker2x2 /\ (3 < 5)%nat /\
    (forall m : nat, m <> 3%nat ->
       nth m [1; 1; 1; 1 / 2; 3 / 10] 0 = nth m [1; 1; 1; 2; 3 / 10] 0) /\
    nth 3 [1; 1; 1; 1 / 2; 3 / 10] 0 <= nth 3 [1; 1; 1; 2; 3 / 10] 0 /\
    compute_aesthetic_charge rgb2lab_D65 (disk_with checker2x2) "image.png" 3
      [1; 1; 1; 1 / 2; 3 / 10] = inr (q, rgb) /\
    compute_aesthetic_charge rgb2lab_D65 (disk_with checker2x2) "image.png" 3
      [1; 1; 1; 2; 3 / 10] = inr (q', rgb') /\
    forall i j : nat, (i < rows checker2x2)%nat -> (j < cols checker2x2)%nat ->
      item 0 q i j <= item 0 q' i j.
Proof.
  destruct (compute_pointwise rgb2lab_D65 (disk_with checker2x2) "image.png" 3
              1 1 1 (1 / 2) (3 / 10) checker2x2 eq_refl valid_checker2x2
              eq_refl) as (q & E & _).
  destruct (compute_pointwise rgb2lab_D65 (disk_with checker2x2) "image.png" 3
              1 1 1 2 (3 / 10) checker2x2 eq_refl valid_checker2x2
              eq_refl) as (q' & E' & _).
  assert (Hsame : forall m : nat, m <> 3%nat ->
            nth m [1; 1; 1; 1 / 2; 3 / 10] 0 = nth m [1; 1; 1; 2; 3 / 10] 0).
  { intros m Hm. destruct m as [|[|[|[|[|m]]]]]; try reflexivity.
    exfalso. apply Hm. reflexivity. }
  assert (Hle : nth 3 [1; 1; 1; 1 / 2; 3 / 10] 0
                <= nth 3 [1; 1; 1; 2; 3 / 10] 0) by (simpl; lra).
  exists q, q', (amap COLOR_BGR2RGB checker2x2),
    (amap COLOR_BGR2RGB checker2x2).
  split; [reflexivity|]. split; [exact valid_checker2x2|]. split; [lia|].
  split; [exact Hsame|]. split; [exact Hle|]. split; [exact E|].
  split; [exact E'|].
  exact (weight_monotone rgb2lab_D65 (disk_with checker2x2) "image.png" 3
           checker2x2 3 [1; 1; 1; 1 / 2; 3 / 10] [1; 1; 1; 2; 3 / 10] q q'
           (amap COLOR_BGR2RGB checker2x2) (amap COLOR_BGR2RGB checker2x2)
           eq_refl valid_checker2x2 ltac:(lia) Hsame Hle E E').
Defined.


Lemma curvature_stencil_witness :
  disk_with checker2x2 "image.png" = Some checker2x2 /\
  valid_image checker2x2 /\ (0 < 5)%Z /\
  (forall src : ndarray R,
     Laplacian src = filter2D src [[0; 1; 0]; [1; -4; 1]; [0; 1; 0]]) /\
  exists q : ndarray R,
    compute_aesthetic_charge rgb2lab_D65 (disk_with checker2x2) "image.png" 5
      [0; 0; 0; 1; 0] = inr (q, amap COLOR_BGR2RGB checker2x2) /\
    forall i j : nat, (i < rows checker2x2)%nat -> (j < cols checker2x2)%nat ->
      let L := L_of rgb2lab_D65 checker2x2 in
      let up :=
        borderInterpolate (Z.of_nat i - 1) (rows checker2x2)
          BORDER_REFLECT_101 in
      let down :=
        borderInterpolate (Z.of_nat i + 1) (rows checker2x2)
          BORDER_REFLECT_101 in
      let left :=
        borderInterpolate (Z.of_nat j - 1) (cols checker2x2)
          BORDER_REFLECT_101 in
      let right :=
        borderInterpolate (Z.of_nat j + 1) (cols checker2x2)
          BORDER_REFLECT_101 in
      item 0 q i j =
      Rabs (item 0 L up j + item 0 L i left + item 0 L i right
            + item 0 L down j - 4 * item 0 L i j).
Proof.
  split; [reflexivity|]. split; [exact valid_checker2x2|]. split; [lia|].
  exact (curvature_stencil rgb2lab_D65 (disk_with checker2x2) "image.png" 5
           checker2x2 eq_refl valid_checker2x2 eq_refl).
Defined.

(** Counterexample to C2 as stated: [kernel_size = 4] on a readable image
    with the default weights returns a field; nothing is raised. *)
Lemma even_kernel_accepted :
  (exists (q : ndarray R) (rgb : ndarray pixel),
     compute_aesthetic_charge rgb2lab_D65 (disk_with checker2x2) "image.png" 4
       default_weights = inr (q, rgb)) /\
  ~ (exists e : exception,
       compute_aesthetic_charge rgb2lab_D65 (disk_with checker2x2)
         "image.png" 4 default_weights = inl e).
Proof.
  destruct (compute_pointwise rgb2lab_D65 (disk_with checker2x2) "image.png" 4
              1 1 1 (1 / 2) (3 / 10) checker2x2 eq_refl valid_checker2x2
              eq_refl) as (q & E & _).
  split.
  - exists q, (amap COLOR_BGR2RGB checker2x2). exact E.
  - intros (e & He). unfold default_weights in He.
    rewrite E in He. discriminate.
Qed.

Lemma parameters_not_validated_witness :
  disk_with checker2x2 "image.png" = Some checker2x2 /\
  valid_image checker2x2 /\
  let call := compute_aesthetic_charge rgb2lab_D65 in
  (forall missing : filesystem, missing "image.png" = None ->
     call missing "image.png" 4%Z default_weights
     = raise cv2_error cvtColor_assert) /\
  ((4 < 0)%Z ->
     call (disk_with checker2x2) "image.png" 4%Z default_weights
     = raise ValueError "negative dimensions are not allowed") /\
  (4%Z = 0%Z ->
     call (disk_with checker2x2) "image.png" 4%Z default_weights
     = raise cv2_error filter2D_assert) /\
  ((0 < 4)%Z -> length default_weights <> 5%nat ->
     exists msg : string,
       call (disk_with checker2x2) "image.png" 4%Z default_weights
       = raise ValueError msg) /\
  ((0 < 4)%Z -> length default_weights = 5%nat ->
     exists q : ndarray R,
       call (disk_with checker2x2) "image.png" 4%Z default_weights
       = inr (q, amap COLOR_BGR2RGB checker2x2)).
Proof.
  split; [reflexivity|]. split; [exact valid_checker2x2|].
  exact (parameters_not_validated rgb2lab_D65 (disk_with checker2x2)
           "image.png" 4%Z default_weights checker2x2
           eq_refl valid_checker2x2).
Defined.

(** Counterexample to C7 as stated: a missing file makes the call fail with
    [cv2.error], not with an [InvalidInput] error, and the message is
    OpenCV's assertion, which does not mention the path. *)
Lemma unreadable_image_error_class :
  exists e : exception,
    compute_aesthetic_charge rgb2lab_D65 (disk_with checker2x2) "missing.png"
      5 default_weights = inl e /\
    exc_class e = "cv2.error" /\
    exc_class e <> "InvalidInput" /\
    exc_msg e = "(-215:Assertion failed) !_src.empty() in function 'cvtColor'".
Proof.
  exists (Raise "cv2.error" cvtColor_assert).
  split; [|split; [reflexivity|split; [discriminate|reflexivity]]].
  apply compute_unreadable. left. reflexivity.
Qed.

Lemma unreadable_image_fails_witness :
  (disk_with checker2x2 "missing.png" = None \/
   (exists img, disk_with checker2x2 "missing.png" = Some img /\
                is_empty img = true)) /\
  compute_aesthetic_charge rgb2lab_D65 (disk_with checker2x2) "missing.png" 5
    default_weights = inl (Raise "cv2.error" cvtColor_assert) /\
  forall r : ndarray R * ndarray pixel,
    compute_aesthetic_charge rgb2lab_D65 (disk_with checker2x2) "missing.png"
      5 default_weights <> inr r.
Proof.
  split; [left; reflexivity|].
  exact (unreadable_image_fails rgb2lab_D65 (disk_with checker2x2)
           "missing.png" 5 default_weights (or_introl eq_refl)).
Defined.

(** Counterexample to C6 as stated: the same path and the same parameters
    give different fields on two disks, so the field is not a function of
    the arguments alone; the call reads the disk. *)
Lemma result_depends_on_disk :
  exists (q1 q2 : ndarray R) (rgb1 rgb2 : ndarray pixel),
    compute_aesthetic_charge rgb2lab_D65 (disk_with checker2x2) "image.png" 5
      default_weights = inr (q1, rgb1) /\
    compute_aesthetic_charge rgb2lab_D65 (disk_with flat1x1) "image.png" 5
      default_weights = inr (q2, rgb2) /\
    q1 <> q2.
Proof.
  destruct (compute_pointwise rgb2lab_D65 (disk_with checker2x2) "image.png" 5
              1 1 1 (1 / 2) (3 / 10) checker2x2 eq_refl valid_checker2x2
              eq_refl) as (q1 & E1 & [R1 _] & _).
  destruct (compute_pointwise rgb2lab_D65 (disk_with flat1x1) "image.png" 5
              1 1 1 (1 / 2) (3 / 10) flat1x1 eq_refl valid_flat1x1
              eq_refl) as (q2 & E2 & [R2 _] & _).
  exists q1, q2, (amap COLOR_BGR2RGB checker2x2), (amap COLOR_BGR2RGB flat1x1).
  split; [exact E1|]. split; [exact E2|].
  intros Heq. subst q2. rewrite R1 in R2. discriminate R2.
Qed.

Lemma one_read_no_display_same_result_witness :
  let w1 := World (disk_with checker2x2) [] in
  let w2 :=
    World (fun _ => Some checker2x2) [PyplotEvent plt_show] in
  files w1 "image.png" = files w2 "image.png" /\
  let call := compute_aesthetic_charge_py rgb2lab_D65 "image.png" 5
                default_weights in
  let after := fst (call w1) in
  files after = files w1 /\
  io_log after = io_log w1 ++ [ImreadEvent "image.png"] /\
  disk_reads (io_log after) = disk_reads (io_log w1) ++ ["image.png"] /\
  display_events (io_log after) = display_events (io_log w1) /\
  snd (call w1)
  = compute_aesthetic_charge rgb2lab_D65 (files w1) "image.png" 5
      default_weights /\
  snd (call w1) = snd (call w2) /\
  snd (call after) = snd (call w1).
Proof.
  intros w1 w2. split; [reflexivity|].
  exact (one_read_no_display_same_result rgb2lab_D65 w1 w2 "image.png" 5
           default_weights eq_refl).
Defined.

(** * Further properties of [compute_aesthetic_charge] *)

Section Outcomes.

Variable rgb2lab_px : pixel -> lab_pixel.

(** X1.  On a disk of decoded images the call returns a result exactly when
    a file is found at the path, the kernel size is positive and there are
    five weights. *)
Theorem call_returns_iff (disk : filesystem) (image_path : string)
  (kernel_size : Z) (weights : list R) :
  decoded_disk disk ->
  ((exists r : ndarray R * ndarray pixel,
      compute_aesthetic_charge rgb2lab_px disk image_path kernel_size weights
      = inr r)
   <->
   (exists bgr, disk image_path = Some bgr) /\ (0 < kernel_size)%Z /\
   length weights = 5%nat).
Proof.
  intros Hdisk. split.
  - intros (r & Hr).
    destruct (compute_success_inv rgb2lab_px _ _ _ _ _ Hr)
      as (bgr & w1 & w2 & w3 & w4 & w5 & E & _ & Hk & ->).
    split; [exists bgr; exact E|]. split; [exact Hk|reflexivity].
  - intros ((bgr & E) & Hk & Hlen).
    destruct weights as [|w1 [|w2 [|w3 [|w4 [|w5 [|w6 l]]]]]];
      try discriminate Hlen.
    destruct (compute_pointwise rgb2lab_px disk image_path kernel_size
                w1 w2 w3 w4 w5 bgr E (Hdisk _ _ E) Hk) as (q & Eq & _).
    eexists. exact Eq.
Qed.

(** X2.  Every failure is one of four, tried in this order: the image is
    missing or empty ([cv2.error] from [cvtColor]); the kernel size is
    negative ([ValueError] from [np.ones]); the kernel size is zero
    ([cv2.error] from [filter2D]); the weights are not five ([ValueError]
    from the unpacking: too few are reported with their number, as in
    [not enough values to unpack (expected 5, got 3)], too many without). *)
Theorem failure_cases (disk : filesystem) (image_path : string)
  (kernel_size : Z) (weights : list R) (e : exception) :
  compute_aesthetic_charge rgb2lab_px disk image_path kernel_size weights
    = inl e ->
  let readable :=
    exists bgr, disk image_path = Some bgr /\ is_empty bgr = false in
  (~ readable /\ e = Raise "cv2.error" cvtColor_assert) \/
  (readable /\ (kernel_size < 0)%Z /\
   e = Raise "ValueError" "negative dimensions are not allowed") \/
  (readable /\ kernel_size = 0%Z /\ e = Raise "cv2.error" filter2D_assert) \/
  (readable /\ (0 < kernel_size)%Z /\ (length weights < 5)%nat /\
   e = Raise "ValueError"
         (String.append "not enough values to unpack (expected 5, got "
            (String.append (decimal (length weights)) ")"))) \/
  (readable /\ (0 < kernel_size)%Z /\ (5 < length weights)%nat /\
   e = Raise "ValueError" "too many values to unpack (expected 5)").
Proof.
  intros He readable.
  destruct (disk image_path) as [bgr|] eqn:E.
  2:{ left. split.
      - intros (bgr & Hb & _). discriminate.
      - rewrite compute_unreadable in He by (left; exact E).
        inversion He. reflexivity. }
  destruct (is_empty bgr) eqn:Hemp.
  { left. split.
    - intros (bgr' & Hb & Hne). inversion Hb; subst bgr'.
      rewrite Hemp in Hne. discriminate.
    - rewrite compute_unreadable in He
        by (right; exists bgr; split; assumption).
      inversion He. reflexivity. }
  assert (Hr : readable) by (exists bgr; split; [reflexivity|exact Hemp]).
  right.
  destruct (Z.lt_trichotomy kernel_size 0) as [Hk|[Hk|Hk]].
  { left. split; [exact Hr|]. split; [exact Hk|].
    rewrite (compute_negative_kernel _ _ _ _ _ bgr E Hemp Hk) in He.
    inversion He. reflexivity. }
  { right. left. split; [exact Hr|]. split; [exact Hk|]. subst kernel_size.
    rewrite (compute_zero_kernel _ _ _ _ bgr E Hemp) in He.
    inversion He. reflexivity. }
  right. right.
  destruct (Nat.eq_dec (length weights) 5) as [Hlen|Hlen].
  { exfalso.
    destruct weights as [|w1 [|w2 [|w3 [|w4 [|w5 [|w6 l]]]]]];
      try discriminate Hlen.
    unfold compute_aesthetic_charge, imread, cvtColor in He.
    rewrite E, Hemp, !bind_ret in He. unfold np_ones in He.
    destruct (Z.ltb_spec kernel_size 0) as [Hneg|_]; [lia|].
    rewrite bind_ret in He. unfold filter2D, Laplacian, filter2D_border in He.
    rewrite (box_kernel_not_empty kernel_size Hk), !bind_ret in He.
    change (is_empty laplacian_kernel) with false in He. cbv iota in He.
    rewrite ?bind_ret in He. discriminate He. }
  rewrite (compute_bad_weights _ _ _ _ _ bgr E Hemp Hk Hlen) in He.
  destruct (Nat.ltb_spec (length weights) 5) as [Hlt|Hge].
  - left. repeat split; try assumption. inversion He. reflexivity.
  - right. repeat split; try assumption; [lia|]. inversion He. reflexivity.
Qed.

End Outcomes.

(** ** Sums and the normalised histogram *)

Lemma np_sum_div (l : list R) (t : R) :
  np_sum (map (fun h => h / t) l) = np_sum l / t.
Proof.
  induction l as [|x l IH]; simpl; [unfold Rdiv; lra|].
  rewrite IH. unfold Rdiv. lra.
Qed.

Lemma calcHist_length (gray : ndarray Z) : length (calcHist gray) = 256%nat.
Proof. unfold calcHist. rewrite length_map, length_seq. reflexivity. Qed.

Lemma calcHist_perm (g1 g2 : ndarray Z) :
  Permutation (concat g1) (concat g2) -> calcHist g1 = calcHist g2.
Proof.
  intros Hp. unfold calcHist. apply map_ext. intros v.
  apply Permutation_count_occ. exact Hp.
Qed.

Lemma concat_amap {A B : Type} (f : A -> B) (x : ndarray A) :
  concat (amap f x) = map f (concat x).
Proof. unfold amap. symmetry. apply concat_map. Qed.

Lemma local_mean_unit (x : ndarray R) (i j : nat) :
  (i < rows x)%nat -> (j < cols x)%nat ->
  local_mean 1 x i j = item 0 x i j.
Proof.
  intros Hi Hj. unfold local_mean, sum_upto. simpl.
  change (Z.of_nat 0 - Z.of_nat (1 / 2))%Z with 0%Z.
  rewrite (neighbour_centre _ x i j Hi Hj). lra.
Qed.

Section Weights.

Variable rgb2lab_px : pixel -> lab_pixel.


(** X4.  With [kernel_size = 1] the kernel is the single entry [1.0], each
    local mean is the pixel itself, and the three contrast terms drop out:
    the field is [w4*|Laplacian L| + w5*entropy]. *)
Theorem unit_kernel_no_contrast (disk : filesystem) (image_path : string)
  (w1 w2 w3 w4 w5 : R) (bgr : ndarray pixel) :
  disk image_path = Some bgr -> valid_image bgr ->
  exists q : ndarray R,
    compute_aesthetic_charge rgb2lab_px disk image_path 1
      [w1; w2; w3; w4; w5] = inr (q, amap COLOR_BGR2RGB bgr) /\
    forall i j : nat, (i < rows bgr)%nat -> (j < cols bgr)%nat ->
      item 0 q i j
      = w4 * Rabs (laplacian4 (L_of rgb2lab_px bgr) i j)
        + w5 * entropy_const bgr.
Proof.
  intros Hdisk Hv.
  assert (Hrows : (0 < rows bgr)%nat) by apply Hv.
  destruct (compute_pointwise rgb2lab_px disk image_path 1
              w1 w2 w3 w4 w5 bgr Hdisk Hv eq_refl) as (q & E & _ & Hpt).
  destruct (lab_channel_shape rgb2lab_px bgr Hv) as (SL & Sa & Sb).
  exists q. split; [exact E|].
  intros i j Hi Hj. rewrite (Hpt i j Hi Hj).
  unfold contrast, curvature. change (Z.to_nat 1) with 1%nat.
  rewrite !local_mean_unit
    by (rewrite ?(has_shape_rows _ _ _ SL), ?(has_shape_cols _ _ _ SL Hrows),
                ?(has_shape_rows _ _ _ Sa), ?(has_shape_cols _ _ _ Sa Hrows),
                ?(has_shape_rows _ _ _ Sb), ?(has_shape_cols _ _ _ Sb Hrows);
        assumption).
  rewrite !Rminus_diag, Rabs_R0. lra.
Qed.

End Weights.

(** X5.  The histogram of a decoded image has 256 bins and counts every
    pixel once: its total is height times width, never zero, so the
    division on line 45 is safe and the normalised histogram sums to 1. *)
Theorem histogram_is_distribution (bgr : ndarray pixel) :
  valid_image bgr ->
  let hist := calcHist (amap COLOR_BGR2GRAY bgr) in
  length hist = 256%nat /\
  list_sum hist = (rows bgr * cols bgr)%nat /\
  (0 < list_sum hist)%nat /\
  np_sum (map (fun h => h / np_sum (map INR hist)) (map INR hist)) = 1.
Proof.
  intros Hv hist.
  destruct (calcHist_total bgr Hv) as [Htot Hpos]. fold hist in Htot, Hpos.
  split; [apply calcHist_length|]. split.
  - rewrite Htot.
    apply length_concat_shape, has_shape_amap, valid_image_shape. exact Hv.
  - split; [exact Hpos|].
    rewrite np_sum_div. apply Rinv_r.
    rewrite np_sum_INR. apply not_0_INR. lia.
Qed.

(** X6.  The entropy depends on the pixels only through their multiset:
    two images whose pixels are a rearrangement of one another have the
    same entropy term, whatever their shapes. *)
Theorem entropy_ignores_arrangement (bgr1 bgr2 : ndarray pixel) :
  Permutation (concat bgr1) (concat bgr2) ->
  entropy_const bgr1 = entropy_const bgr2.
Proof.
  intros Hp. unfold entropy_const. f_equal.
  apply calcHist_perm. rewrite !concat_amap.
  apply Permutation_map. exact Hp.
Qed.

(** ** Pixels away from the border, and pixels on it *)

Lemma neighbour_inside (bt : BorderType) (x : ndarray R) (i j : nat)
  (di dj : Z) :
  (0 <= Z.of_nat i + di < Z.of_nat (rows x))%Z ->
  (0 <= Z.of_nat j + dj < Z.of_nat (cols x))%Z ->
  neighbour bt x i j di dj
  = item 0 x (Z.to_nat (Z.of_nat i + di)) (Z.to_nat (Z.of_nat j + dj)).
Proof.
  intros Hi Hj. unfold neighbour.
  rewrite !borderInterpolate_inside by assumption. reflexivity.
Qed.

Lemma local_mean_interior (k : nat) (x : ndarray R) (i j : nat) :
  (k / 2 <= i)%nat -> (i + (k - k / 2) <= rows x)%nat ->
  (k / 2 <= j)%nat -> (j + (k - k / 2) <= cols x)%nat ->
  local_mean k x i j
  = sum_upto k (fun u => sum_upto k (fun v =>
      item 0 x (i + u - k / 2) (j + v - k / 2))) / INR (k * k).
Proof.
  intros Hi1 Hi2 Hj1 Hj2. unfold local_mean. f_equal.
  apply sum_upto_ext. intros u Hu. apply sum_upto_ext. intros v Hv.
  rewrite neighbour_inside by lia.
  f_equal; lia.
Qed.

Lemma laplacian4_interior (x : ndarray R) (i j : nat) :
  (1 <= i)%nat -> (i + 2 <= rows x)%nat ->
  (1 <= j)%nat -> (j + 2 <= cols x)%nat ->
  laplacian4 x i j
  = item 0 x (i - 1) j + item 0 x i (j - 1) + item 0 x i (j + 1)
    + item 0 x (i + 1) j - 4 * item 0 x i j.
Proof.
  intros Hi1 Hi2 Hj1 Hj2. unfold laplacian4.
  rewrite !neighbour_inside by lia.
  repeat match goal with
         | |- context [Z.to_nat ?z] =>
             first [ replace (Z.to_nat z) with (i - 1)%nat by lia
                   | replace (Z.to_nat z) with (i + 1)%nat by lia
                   | replace (Z.to_nat z) with (j - 1)%nat by lia
                   | replace (Z.to_nat z) with (j + 1)%nat by lia
                   | replace (Z.to_nat z) with i by lia
                   | replace (Z.to_nat z) with j by lia ]
         end.
  reflexivity.
Qed.

(** Reflect-101 at the two ends of an axis of length at least two: the
    position before the first entry reads entry 1, the position after the
    last reads the last but one. *)
Lemma reflect101_ends (len : nat) :
  (2 <= len)%nat ->
  borderInterpolate (-1) len BORDER_REFLECT_101 = 1%nat /\
  borderInterpolate (Z.of_nat len) len BORDER_REFLECT_101 = (len - 2)%nat.
Proof.
  intros Hlen. unfold borderInterpolate.
  destruct (Nat.eqb_spec len 1) as [?|_]; [lia|].
  split.
  - cbn [Z.leb Z.compare andb].
    replace (-1 mod (2 * (Z.of_nat len - 1)))%Z
      with (2 * (Z.of_nat len - 1) - 1)%Z.
    + destruct (Z.ltb_spec (2 * (Z.of_nat len - 1) - 1) (Z.of_nat len)); lia.
    + apply Z.mod_unique with (q := (-1)%Z); lia.
  - destruct (Z.leb_spec 0 (Z.of_nat len)); [|lia].
    destruct (Z.ltb_spec (Z.of_nat len) (Z.of_nat len)); [lia|].
    cbn [andb].
    destruct (Z.eq_dec (Z.of_nat len) 2) as [E2|N2].
    + rewrite E2. simpl. lia.
    + rewrite (Z.mod_small (Z.of_nat len)) by lia.
      destruct (Z.ltb_spec (Z.of_nat len) (Z.of_nat len)); lia.
Qed.

(** On an axis of length one every position reads the only entry. *)
Lemma reflect101_single_entry (p : Z) :
  borderInterpolate p 1 BORDER_REFLECT_101 = 0%nat.
Proof.
  unfold borderInterpolate.
  destruct (Z.leb_spec 0 p); destruct (Z.ltb_spec p (Z.of_nat 1));
    cbn [andb]; try reflexivity.
  simpl in *. lia.
Qed.

Lemma laplacian4_top_row (x : ndarray R) (j : nat) :
  (2 <= rows x)%nat -> (1 <= j)%nat -> (j + 2 <= cols x)%nat ->
  laplacian4 x 0 j
  = 2 * item 0 x 1 j + item 0 x 0 (j - 1) + item 0 x 0 (j + 1)
    - 4 * item 0 x 0 j.
Proof.
  intros Hr Hj1 Hj2. unfold laplacian4, neighbour.
  destruct (reflect101_ends (rows x) Hr) as [Eup _].
  change (Z.of_nat 0 + -1)%Z with (-1)%Z. rewrite Eup.
  change (Z.of_nat 0 + 0)%Z with 0%Z. change (Z.of_nat 0 + 1)%Z with 1%Z.
  rewrite !(borderInterpolate_inside 0), !(borderInterpolate_inside 1) by lia.
  rewrite !(borderInterpolate_inside (Z.of_nat j + _)) by lia.
  replace (Z.to_nat (Z.of_nat j + 0)) with j by lia.
  replace (Z.to_nat (Z.of_nat j + -1)) with (j - 1)%nat by lia.
  replace (Z.to_nat (Z.of_nat j + 1)) with (j + 1)%nat by lia.
  change (Z.to_nat 0) with 0%nat. change (Z.to_nat 1) with 1%nat. lra.
Qed.

Lemma laplacian4_first_corner (x : ndarray R) :
  (2 <= rows x)%nat -> (2 <= cols x)%nat ->
  laplacian4 x 0 0
  = 2 * item 0 x 1 0 + 2 * item 0 x 0 1 - 4 * item 0 x 0 0.
Proof.
  intros Hr Hc. unfold laplacian4, neighbour.
  destruct (reflect101_ends (rows x) Hr) as [Eup _].
  destruct (reflect101_ends (cols x) Hc) as [Eleft _].
  change (Z.of_nat 0 + -1)%Z with (-1)%Z. rewrite Eup, Eleft.
  change (Z.of_nat 0 + 0)%Z with 0%Z. change (Z.of_nat 0 + 1)%Z with 1%Z.
  rewrite !(borderInterpolate_inside 0), !(borderInterpolate_inside 1) by lia.
  change (Z.to_nat 0) with 0%nat. change (Z.to_nat 1) with 1%nat. lra.
Qed.

Lemma laplacian4_last_corner (x : ndarray R) :
  (2 <= rows x)%nat -> (2 <= cols x)%nat ->
  let i := (rows x - 1)%nat in
  let j := (cols x - 1)%nat in
  laplacian4 x i j
  = 2 * item 0 x (i - 1) j + 2 * item 0 x i (j - 1) - 4 * item 0 x i j.
Proof.
  intros Hr Hc i j. unfold laplacian4, neighbour.
  destruct (reflect101_ends (rows x) Hr) as [_ Edown].
  destruct (reflect101_ends (cols x) Hc) as [_ Eright].
  replace (Z.of_nat i + 1)%Z with (Z.of_nat (rows x)) by (unfold i; lia).
  replace (Z.of_nat j + 1)%Z with (Z.of_nat (cols x)) by (unfold j; lia).
  rewrite Edown, Eright.
  rewrite !(borderInterpolate_inside (Z.of_nat i + _)),
          !(borderInterpolate_inside (Z.of_nat j + _)) by (unfold i, j; lia).
  replace (Z.to_nat (Z.of_nat i + 0)) with i by lia.
  replace (Z.to_nat (Z.of_nat j + 0)) with j by lia.
  replace (Z.to_nat (Z.of_nat i + -1)) with (i - 1)%nat by lia.
  replace (Z.to_nat (Z.of_nat j + -1)) with (j - 1)%nat by lia.
  replace (rows x - 2)%nat with (i - 1)%nat by (unfold i; lia).
  replace (cols x - 2)%nat with (j - 1)%nat by (unfold j; lia).
  lra.
Qed.

Lemma laplacian4_single_row (x : ndarray R) (j : nat) :
  rows x = 1%nat -> (1 <= j)%nat -> (j + 2 <= cols x)%nat ->
  laplacian4 x 0 j
  = item 0 x 0 (j - 1) + item 0 x 0 (j + 1) - 2 * item 0 x 0 j.
Proof.
  intros Hr Hj1 Hj2. unfold laplacian4, neighbour. rewrite Hr.
  rewrite !reflect101_single_entry.
  rewrite !(borderInterpolate_inside (Z.of_nat j + _)) by lia.
  replace (Z.to_nat (Z.of_nat j + 0)) with j by lia.
  replace (Z.to_nat (Z.of_nat j + -1)) with (j - 1)%nat by lia.
  replace (Z.to_nat (Z.of_nat j + 1)) with (j + 1)%nat by lia.
  lra.
Qed.

Section Borders.

Variable rgb2lab_px : pixel -> lab_pixel.

(** With the weights [(0,0,0,1,0)] the field is the curvature map. *)
Lemma curvature_field (disk : filesystem) (image_path : string)
  (kernel_size : Z) (bgr : ndarray pixel) :
  disk image_path = Some bgr -> valid_image bgr -> (0 < kernel_size)%Z ->
  rows (L_of rgb2lab_px bgr) = rows bgr /\
  cols (L_of rgb2lab_px bgr) = cols bgr /\
  exists q : ndarray R,
    compute_aesthetic_charge rgb2lab_px disk image_path kernel_size
      [0; 0; 0; 1; 0] = inr (q, amap COLOR_BGR2RGB bgr) /\
    forall i j : nat, (i < rows bgr)%nat -> (j < cols bgr)%nat ->
      item 0 q i j = Rabs (laplacian4 (L_of rgb2lab_px bgr) i j).
Proof.
  intros Hdisk Hv Hk.
  assert (Hrows : (0 < rows bgr)%nat) by apply Hv.
  destruct (lab_channel_shape rgb2lab_px bgr Hv) as (SL & _).
  split; [exact (has_shape_rows _ _ _ SL)|].
  split; [exact (has_shape_cols _ _ _ SL Hrows)|].
  destruct (compute_pointwise rgb2lab_px disk image_path kernel_size
              0 0 0 1 0 bgr Hdisk Hv Hk) as (q & E & _ & Hpt).
  exists q. split; [exact E|].
  intros i j Hi Hj. rewrite (Hpt i j Hi Hj). unfold curvature. lra.
Qed.

(** X7.  At a pixel whose [k] x [k] window and whose four neighbours lie
    inside the image, no border extrapolation takes part: the local means
    are plain averages over the rows [i - k/2 .. i - k/2 + k - 1] and the
    matching columns, and the Laplacian is the plain 4-neighbour
    difference.  For an even [k] the window has one more row above and
    one more column to the left than below and to the right. *)
Theorem interior_pixels_plain (disk : filesystem) (image_path : string)
  (kernel_size : Z) (w1 w2 w3 w4 w5 : R) (bgr : ndarray pixel) (i j : nat) :
  disk image_path = Some bgr -> valid_image bgr -> (0 < kernel_size)%Z ->
  let k := Z.to_nat kernel_size in
  (Nat.max (k / 2) 1 <= i)%nat ->
  (i + Nat.max (k - k / 2) 2 <= rows bgr)%nat ->
  (Nat.max (k / 2) 1 <= j)%nat ->
  (j + Nat.max (k - k / 2) 2 <= cols bgr)%nat ->
  exists q : ndarray R,
    compute_aesthetic_charge rgb2lab_px disk image_path kernel_size
      [w1; w2; w3; w4; w5] = inr (q, amap COLOR_BGR2RGB bgr) /\
    let mean := fun x : ndarray R =>
      sum_upto k (fun u => sum_upto k (fun v =>
        item 0 x (i + u - k / 2) (j + v - k / 2))) / INR (k * k) in
    let lap := fun x : ndarray R =>
      item 0 x (i - 1) j + item 0 x i (j - 1) + item 0 x i (j + 1)
      + item 0 x (i + 1) j - 4 * item 0 x i j in
    let L := L_of rgb2lab_px bgr in
    let a := a_of rgb2lab_px bgr in
    let b := b_of rgb2lab_px bgr in
    item 0 q i j =
    w1 * Rabs (item 0 L i j - mean L)
    + w2 * Rabs (item 0 a i j - mean a)
    + w3 * Rabs (item 0 b i j - mean b)
    + w4 * Rabs (lap L)
    + w5 * entropy_const bgr.
Proof.
  intros Hdisk Hv Hk k Hi1 Hi2 Hj1 Hj2.
  assert (Hrows : (0 < rows bgr)%nat) by apply Hv.
  destruct (lab_channel_shape rgb2lab_px bgr Hv) as (SL & Sa & Sb).
  destruct (compute_pointwise rgb2lab_px disk image_path kernel_size
              w1 w2 w3 w4 w5 bgr Hdisk Hv Hk) as (q & E & _ & Hpt).
  exists q. split; [exact E|]. cbv zeta.
  rewrite (Hpt i j) by lia.
  unfold contrast, curvature. fold k.
  rewrite !local_mean_interior, laplacian4_interior;
    rewrite ?(has_shape_rows _ _ _ SL), ?(has_shape_cols _ _ _ SL Hrows),
            ?(has_shape_rows _ _ _ Sa), ?(has_shape_cols _ _ _ Sa Hrows),
            ?(has_shape_rows _ _ _ Sb), ?(has_shape_cols _ _ _ Sb Hrows);
    try lia.
  reflexivity.
Qed.

(** X8.  On the border reflect-101 mirrors about the edge pixel, so the
    missing neighbour is replaced by the opposite one: on the top row the
    curvature is [|2*below + left + right - 4*centre|], and at the first and
    last corner it is [|2*vertical + 2*horizontal - 4*centre|]. *)
Theorem curvature_on_border (disk : filesystem) (image_path : string)
  (kernel_size : Z) (bgr : ndarray pixel) :
  disk image_path = Some bgr -> valid_image bgr -> (0 < kernel_size)%Z ->
  (2 <= rows bgr)%nat -> (2 <= cols bgr)%nat ->
  exists q : ndarray R,
    compute_aesthetic_charge rgb2lab_px disk image_path kernel_size
      [0; 0; 0; 1; 0] = inr (q, amap COLOR_BGR2RGB bgr) /\
    let L := L_of rgb2lab_px bgr in
    let h := rows bgr in
    let w := cols bgr in
    (forall j : nat, (1 <= j)%nat -> (j + 2 <= w)%nat ->
       item 0 q 0 j
       = Rabs (2 * item 0 L 1 j + item 0 L 0 (j - 1) + item 0 L 0 (j + 1)
               - 4 * item 0 L 0 j)) /\
    item 0 q 0 0
    = Rabs (2 * item 0 L 1 0 + 2 * item 0 L 0 1 - 4 * item 0 L 0 0) /\
    item 0 q (h - 1) (w - 1)
    = Rabs (2 * item 0 L (h - 2) (w - 1) + 2 * item 0 L (h - 1) (w - 2)
            - 4 * item 0 L (h - 1) (w - 1)).
Proof.
  intros Hdisk Hv Hk Hr Hc.
  destruct (curvature_field disk image_path kernel_size bgr Hdisk Hv Hk)
    as (RL & CL & q & E & Hpt).
  exists q. split; [exact E|]. cbv zeta. split; [|split].
  - intros j Hj1 Hj2. rewrite (Hpt 0%nat j) by lia.
    rewrite laplacian4_top_row by (rewrite ?RL, ?CL; lia). reflexivity.
  - rewrite (Hpt 0%nat 0%nat) by lia.
    rewrite laplacian4_first_corner by (rewrite ?RL, ?CL; lia). reflexivity.
  - rewrite (Hpt (rows bgr - 1)%nat (cols bgr - 1)%nat) by lia.
    rewrite <- RL, <- CL.
    rewrite (laplacian4_last_corner (L_of rgb2lab_px bgr))
      by (rewrite ?RL, ?CL; lia).
    replace (rows (L_of rgb2lab_px bgr) - 1 - 1)%nat
      with (rows (L_of rgb2lab_px bgr) - 2)%nat by lia.
    replace (cols (L_of rgb2lab_px bgr) - 1 - 1)%nat
      with (cols (L_of rgb2lab_px bgr) - 2)%nat by lia.
    reflexivity.
Qed.

(** X9.  An image of a single row has no vertical neighbours: reflect-101
    hands back the row itself, the vertical part of the stencil cancels and
    the curvature is the horizontal second difference
    [|left + right - 2*centre|]. *)
Theorem curvature_single_row (disk : filesystem) (image_path : string)
  (kernel_size : Z) (bgr : ndarray pixel) :
  disk image_path = Some bgr -> valid_image bgr -> (0 < kernel_size)%Z ->
  rows bgr = 1%nat ->
  exists q : ndarray R,
    compute_aesthetic_charge rgb2lab_px disk image_path kernel_size
      [0; 0; 0; 1; 0] = inr (q, amap COLOR_BGR2RGB bgr) /\
    forall j : nat, (1 <= j)%nat -> (j + 2 <= cols bgr)%nat ->
      let L := L_of rgb2lab_px bgr in
      item 0 q 0 j
      = Rabs (item 0 L 0 (j - 1) + item 0 L 0 (j + 1) - 2 * item 0 L 0 j).
Proof.
  intros Hdisk Hv Hk Hr.
  destruct (curvature_field disk image_path kernel_size bgr Hdisk Hv Hk)
    as (RL & CL & q & E & Hpt).
  exists q. split; [exact E|].
  intros j Hj1 Hj2. cbv zeta. rewrite (Hpt 0%nat j) by lia.
  rewrite laplacian4_single_row by (rewrite ?RL, ?CL; lia). reflexivity.
Qed.

End Borders.

(** ** The kernel and the filters under an affine change of the channel *)

Lemma np_sum_affine (s c : R) (f : nat -> R) (l : list nat) :
  np_sum (map (fun u => s * f u + c) l)
  = s * np_sum (map f l) + INR (length l) * c.
Proof.
  induction l as [|x l IH]; [simpl; lra|].
  change (s * f x + c + np_sum (map (fun u => s * f u + c) l)
          = s * (f x + np_sum (map f l)) + INR (S (length l)) * c).
  rewrite IH, S_INR. lra.
Qed.


Lemma np_sum_tabulate (h w : nat) (f : nat -> nat -> R) :
  np_sum (map np_sum (tabulate h w f))
  = sum_upto h (fun i => sum_upto w (fun j => f i j)).
Proof. unfold tabulate, sum_upto. rewrite map_map. reflexivity. Qed.

Lemma amap_tabulate {A B : Type} (g : A -> B) (h w : nat)
  (f : nat -> nat -> A) :
  amap g (tabulate h w f) = tabulate h w (fun i j => g (f i j)).
Proof.
  unfold amap, tabulate. rewrite map_map. apply map_ext. intros i.
  apply map_map.
Qed.




(** X10.  For a positive [kernel_size] the kernel of line 26 has
    [kernel_size] rows and columns, every entry is [1 / kernel_size**2], and
    its entries sum to 1. *)
Theorem box_kernel_normalised (kernel_size : Z) :
  (0 < kernel_size)%Z ->
  exists ones : ndarray R,
    np_ones kernel_size = inr ones /\
    let kernel := np_div ones (IZR (kernel_size ^ 2)) in
    let k := Z.to_nat kernel_size in
    shape kernel = (k, k) /\
    (forall u v : nat, (u < k)%nat -> (v < k)%nat ->
       item 0 kernel u v = 1 / IZR (kernel_size ^ 2)) /\
    np_sum (map np_sum kernel) = 1.
Proof.
  intros Hk. unfold np_ones.
  destruct (Z.ltb_spec kernel_size 0) as [Hneg|_]; [lia|].
  eexists. split; [reflexivity|]. cbv zeta.
  assert (Hpos : (0 < Z.to_nat kernel_size)%nat) by lia.
  split; [|split].
  - apply shape_of_has_shape; [apply box_kernel_shape|exact Hpos].
  - intros u v Hu Hv. apply box_kernel_item; assumption.
  - unfold np_div. rewrite amap_tabulate, np_sum_tabulate.
    rewrite (sum_upto_ext _ _ (fun _ =>
               INR (Z.to_nat kernel_size) * (1 / IZR (kernel_size ^ 2))))
      by (intros u _; apply sum_upto_const).
    rewrite sum_upto_const, (box_kernel_norm kernel_size Hk), mult_INR.
    assert (Hn : 0 < INR (Z.to_nat kernel_size))
      by (apply lt_0_INR; exact Hpos).
    field. lra.
Qed.


Lemma swap_rb_involutive (p : pixel) : swap_rb (swap_rb p) = p.
Proof. destruct p as [[b g] r]. reflexivity. Qed.

Lemma amap_id_ext {A : Type} (f : A -> A) (x : ndarray A) :
  (forall a, f a = a) -> amap f x = x.
Proof.
  intros Hf. unfold amap.
  rewrite <- (map_id x) at 2. apply map_ext. intros r.
  rewrite <- (map_id r) at 2. apply map_ext. exact Hf.
Qed.

Lemma amap_amap {A B C : Type} (f : A -> B) (g : B -> C) (x : ndarray A) :
  amap g (amap f x) = amap (fun a => g (f a)) x.
Proof.
  unfold amap. rewrite map_map. apply map_ext. intros r. apply map_map.
Qed.

Section Returned.

Variable rgb2lab_px : pixel -> lab_pixel.

(** X12.  The image returned beside the field has the shape of the field
    and of the file's image, holds at every pixel the three channels in the
    opposite order, and converts back to the decoded image by the same
    channel swap. *)
Theorem returned_rgb_round_trip (disk : filesystem) (image_path : string)
  (kernel_size : Z) (weights : list R) (bgr : ndarray pixel)
  (q : ndarray R) (rgb : ndarray pixel) :
  disk image_path = Some bgr -> valid_image bgr ->
  compute_aesthetic_charge rgb2lab_px disk image_path kernel_size weights
    = inr (q, rgb) ->
  shape rgb = shape bgr /\ shape rgb = shape q /\
  amap COLOR_BGR2RGB rgb = bgr /\
  forall i j : nat, (i < rows bgr)%nat -> (j < cols bgr)%nat ->
    let p := item (0, 0, 0)%Z bgr i j in
    item (0, 0, 0)%Z rgb i j = (chan2 p, chan1 p, chan0 p).
Proof.
  intros Hdisk Hv Hq.
  destruct (compute_success rgb2lab_px _ _ _ _ _ _ _ Hdisk Hv Hq)
    as (w1 & w2 & w3 & w4 & w5 & _ & _ & -> & Hs & _).
  assert (Hrows : (0 < rows bgr)%nat) by apply Hv.
  assert (Hb := valid_image_shape bgr Hv).
  assert (Hrgb : has_shape (rows bgr) (cols bgr) (amap COLOR_BGR2RGB bgr))
    by (apply has_shape_amap; exact Hb).
  split; [|split; [|split]].
  - rewrite (shape_of_has_shape _ _ _ Hrgb Hrows). reflexivity.
  - rewrite (shape_of_has_shape _ _ _ Hrgb Hrows),
            (shape_of_has_shape _ _ _ Hs Hrows). reflexivity.
  - rewrite amap_amap. apply amap_id_ext. exact swap_rb_involutive.
  - intros i j Hi Hj. cbv zeta.
    rewrite (item_amap COLOR_BGR2RGB (0, 0, 0)%Z (0, 0, 0)%Z
               (rows bgr) (cols bgr)) by assumption.
    reflexivity.
Qed.

End Returned.

(** ** Mirroring the image *)

Lemma has_shape_flip_h {A : Type} (h w : nat) (x : ndarray A) :
  has_shape h w x -> has_shape h w (flip_h x).
Proof.
  intros [Hh Hw]. unfold flip_h. split.
  - rewrite length_map. exact Hh.
  - apply Forall_forall. intros r Hr. apply in_map_iff in Hr.
    destruct Hr as (r' & <- & Hr'). rewrite length_rev.
    rewrite Forall_forall in Hw. apply Hw. exact Hr'.
Qed.

Lemma item_flip_h {A : Type} (d : A) (h w : nat) (x : ndarray A) (i j : nat) :
  has_shape h w x -> (i < h)%nat -> (j < w)%nat ->
  item d (flip_h x) i j = item d x i (w - 1 - j).
Proof.
  intros Hs Hi Hj. unfold item, flip_h.
  assert (Hr := has_shape_row h w x i Hs Hi).
  change (@nil A) with (rev (@nil A)) at 1.
  rewrite (map_nth (@rev A) x [] i).
  rewrite rev_nth by lia. rewrite Hr. f_equal. lia.
Qed.

Lemma amap_flip_h {A B : Type} (f : A -> B) (x : ndarray A) :
  amap f (flip_h x) = flip_h (amap f x).
Proof.
  unfold amap, flip_h. rewrite !map_map. apply map_ext. intros r.
  apply map_rev.
Qed.

Lemma rows_flip_h {A : Type} (x : ndarray A) : rows (flip_h x) = rows x.
Proof. unfold rows, flip_h. apply length_map. Qed.

Lemma cols_flip_h {A : Type} (x : ndarray A) : cols (flip_h x) = cols x.
Proof. destruct x as [|r x]; simpl; [reflexivity|apply length_rev]. Qed.

Lemma valid_image_flip_h (img : ndarray pixel) :
  valid_image img -> valid_image (flip_h img).
Proof.
  intros (Hr & Hc & Hs & Hpx). unfold valid_image.
  rewrite rows_flip_h, cols_flip_h.
  split; [exact Hr|]. split; [exact Hc|]. split.
  - apply (has_shape_flip_h (rows img) (cols img)). split; [reflexivity|exact Hs].
  - unfold flip_h. apply Forall_map. eapply Forall_impl; [|exact Hpx].
    intros r. apply Forall_rev.
Qed.

Lemma concat_flip_h_perm {A : Type} (x : ndarray A) :
  Permutation (concat (flip_h x)) (concat x).
Proof.
  induction x as [|r x IH]; simpl; [constructor|].
  apply Permutation_app; [|exact IH].
  apply Permutation_sym, Permutation_rev.
Qed.

(** Reflect-101 commutes with reversing the axis. *)
Lemma reflect101_mirror (p : Z) (len : nat) :
  (0 < len)%nat ->
  borderInterpolate (Z.of_nat len - 1 - p) len BORDER_REFLECT_101
  = (len - 1 - borderInterpolate p len BORDER_REFLECT_101)%nat.
Proof.
  intros Hlen.
  destruct (Nat.eq_dec len 1) as [->|Hne].
  { rewrite !reflect101_single_entry. reflexivity. }
  set (n := Z.of_nat len). set (m := (2 * (n - 1))%Z).
  assert (Hn : (2 <= n)%Z) by (unfold n; lia).
  assert (closed : forall t : Z,
            Z.of_nat (borderInterpolate t len BORDER_REFLECT_101)
            = if (t mod m <? n)%Z then (t mod m)%Z else (m - t mod m)%Z).
  { intros t. unfold borderInterpolate. fold n. fold m.
    assert (Hm := Z.mod_pos_bound t m ltac:(unfold m; lia)).
    destruct (Z.leb_spec 0 t); destruct (Z.ltb_spec t n); cbn [andb].
    - rewrite Z.mod_small by (unfold m; lia).
      destruct (Z.ltb_spec t n); lia.
    - destruct (Nat.eqb_spec len 1); [lia|].
      destruct (Z.ltb_spec (t mod m) n); lia.
    - destruct (Nat.eqb_spec len 1); [lia|].
      destruct (Z.ltb_spec (t mod m) n); lia.
    - destruct (Nat.eqb_spec len 1); [lia|].
      destruct (Z.ltb_spec (t mod m) n); lia. }
  apply Nat2Z.inj.
  assert (Hlt := borderInterpolate_lt p len BORDER_REFLECT_101 Hlen).
  rewrite Nat2Z.inj_sub by lia. rewrite Nat2Z.inj_sub by lia.
  rewrite !closed. fold n. change (Z.of_nat 1) with 1%Z.
  assert (Hm := Z.mod_pos_bound p m ltac:(unfold m; lia)).
  assert (Hdiv := Z.div_mod p m ltac:(unfold m; lia)).
  set (r := (p mod m)%Z) in *. set (d := (p / m)%Z) in *.
  destruct (Z.ltb_spec r n) as [Hr|Hr].
  - assert (E : ((n - 1 - p) mod m = n - 1 - r)%Z).
    { symmetry. apply Z.mod_unique with (q := (- d)%Z); [unfold m; lia|].
      rewrite Hdiv. ring. }
    rewrite E. destruct (Z.ltb_spec (n - 1 - r) n); lia.
  - assert (E : ((n - 1 - p) mod m = m + n - 1 - r)%Z).
    { symmetry. apply Z.mod_unique with (q := (- d - 1)%Z); [unfold m; lia|].
      rewrite Hdiv. ring. }
    rewrite E. destruct (Z.ltb_spec (m + n - 1 - r) n); unfold m in *; lia.
Qed.

Lemma sum_upto_S (n : nat) (f : nat -> R) :
  sum_upto (S n) f = sum_upto n f + f n.
Proof.
  unfold sum_upto. rewrite seq_S, map_app. simpl.
  induction (map f (seq 0 n)) as [|y l IH]; simpl; [lra|].
  rewrite IH. lra.
Qed.

Lemma sum_upto_shift (n : nat) (f : nat -> R) :
  sum_upto (S n) f = f 0%nat + sum_upto n (fun v => f (S v)).
Proof.
  unfold sum_upto. simpl. rewrite <- seq_shift, map_map. reflexivity.
Qed.

Lemma sum_upto_rev (n : nat) (f : nat -> R) :
  sum_upto n f = sum_upto n (fun v => f (n - 1 - v)%nat).
Proof.
  revert f. induction n as [|n IH]; intros f; [reflexivity|].
  rewrite sum_upto_S, sum_upto_shift, (IH f).
  replace (S n - 1 - 0)%nat with n by lia.
  rewrite Rplus_comm. f_equal.
  apply sum_upto_ext. intros v Hv. f_equal. lia.
Qed.

Lemma neighbour_flip_h (h w : nat) (x : ndarray R) (i j : nat) (di dj : Z) :
  has_shape h w x -> (0 < h)%nat -> (j < w)%nat ->
  neighbour BORDER_REFLECT_101 (flip_h x) i j di dj
  = neighbour BORDER_REFLECT_101 x i (w - 1 - j) di (- dj).
Proof.
  intros Hs Hh Hj. unfold neighbour.
  rewrite rows_flip_h, cols_flip_h.
  rewrite (has_shape_rows h w x Hs), (has_shape_cols h w x Hs Hh).
  rewrite (item_flip_h 0 h w) by
    (try assumption; apply borderInterpolate_lt; lia).
  f_equal.
  rewrite <- reflect101_mirror by lia. f_equal. lia.
Qed.

Lemma local_mean_flip_h (k h w : nat) (x : ndarray R) (i j : nat) :
  k = (2 * (k / 2) + 1)%nat ->
  has_shape h w x -> (0 < h)%nat -> (j < w)%nat ->
  local_mean k (flip_h x) i j = local_mean k x i (w - 1 - j).
Proof.
  intros Hodd Hs Hh Hj. unfold local_mean. f_equal.
  apply sum_upto_ext. intros u Hu.
  rewrite (sum_upto_rev k (fun v =>
             neighbour BORDER_REFLECT_101 x i (w - 1 - j)
               (Z.of_nat u - Z.of_nat (k / 2))
               (Z.of_nat v - Z.of_nat (k / 2)))).
  apply sum_upto_ext. intros v Hv.
  rewrite (neighbour_flip_h h w) by assumption.
  f_equal. lia.
Qed.

Lemma laplacian4_flip_h (h w : nat) (x : ndarray R) (i j : nat) :
  has_shape h w x -> (0 < h)%nat -> (j < w)%nat ->
  laplacian4 (flip_h x) i j = laplacian4 x i (w - 1 - j).
Proof.
  intros Hs Hh Hj. unfold laplacian4.
  rewrite !(neighbour_flip_h h w) by assumption.
  change (- 0)%Z with 0%Z. change (- (1))%Z with (-1)%Z.
  change (- (-1))%Z with 1%Z. lra.
Qed.

Section Mirror.

Variable rgb2lab_px : pixel -> lab_pixel.

Lemma lab_channels_flip_h (bgr : ndarray pixel) :
  L_of rgb2lab_px (flip_h bgr) = flip_h (L_of rgb2lab_px bgr) /\
  a_of rgb2lab_px (flip_h bgr) = flip_h (a_of rgb2lab_px bgr) /\
  b_of rgb2lab_px (flip_h bgr) = flip_h (b_of rgb2lab_px bgr).
Proof.
  unfold L_of, a_of, b_of, lab_of, rgb2lab.
  rewrite !amap_flip_h. repeat split.
Qed.

Lemma entropy_const_flip_h (bgr : ndarray pixel) :
  entropy_const (flip_h bgr) = entropy_const bgr.
Proof.
  unfold entropy_const. f_equal. apply calcHist_perm.
  rewrite amap_flip_h. apply concat_flip_h_perm.
Qed.

Lemma contrast_flip_h (kernel_size : Z) (h w : nat) (x : ndarray R)
  (i j : nat) :
  (0 < kernel_size)%Z -> Z.odd kernel_size = true ->
  has_shape h w x -> (i < h)%nat -> (j < w)%nat ->
  contrast kernel_size (flip_h x) i j = contrast kernel_size x i (w - 1 - j).
Proof.
  intros Hk Hodd Hs Hi Hj. unfold contrast.
  assert (Hhalf : Z.to_nat kernel_size
                  = (2 * (Z.to_nat kernel_size / 2) + 1)%nat).
  { apply Z.odd_spec in Hodd. destruct Hodd as (c & Hc).
    subst kernel_size.
    replace (Z.to_nat (2 * c + 1)) with (2 * Z.to_nat c + 1)%nat by lia.
    replace ((2 * Z.to_nat c + 1) / 2)%nat with (Z.to_nat c);
      [reflexivity|].
    apply Nat.div_unique with (r := 1%nat); lia. }
  rewrite (item_flip_h 0 h w) by assumption.
  rewrite (local_mean_flip_h _ h w) by (try assumption; lia).
  reflexivity.
Qed.

(** X13.  For an odd kernel size the computation commutes with mirroring:
    if the call returns [(q, rgb)] for an image, then for the image mirrored
    left to right it returns the mirrored [rgb] and a field whose value at
    column [j] is the value of [q] at column [width - 1 - j]. *)
Theorem mirror_equivariance (disk disk' : filesystem) (image_path : string)
  (kernel_size : Z) (weights : list R) (bgr : ndarray pixel)
  (q : ndarray R) (rgb : ndarray pixel) :
  disk image_path = Some bgr -> disk' image_path = Some (flip_h bgr) ->
  valid_image bgr -> Z.odd kernel_size = true ->
  compute_aesthetic_charge rgb2lab_px disk image_path kernel_size weights
    = inr (q, rgb) ->
  exists q' : ndarray R,
    compute_aesthetic_charge rgb2lab_px disk' image_path kernel_size weights
      = inr (q', flip_h rgb) /\
    forall i j : nat, (i < rows bgr)%nat -> (j < cols bgr)%nat ->
      item 0 q' i j = item 0 q i (cols bgr - 1 - j).
Proof.
  intros Hdisk Hdisk' Hv Hodd Hq.
  destruct (compute_success rgb2lab_px _ _ _ _ _ _ _ Hdisk Hv Hq)
    as (w1 & w2 & w3 & w4 & w5 & -> & Hk & -> & _ & Hpt).
  assert (Hv' := valid_image_flip_h bgr Hv).
  destruct (compute_pointwise rgb2lab_px disk' image_path kernel_size
              w1 w2 w3 w4 w5 (flip_h bgr) Hdisk' Hv' Hk)
    as (q' & E' & _ & Hpt').
  rewrite rows_flip_h, cols_flip_h in Hpt'.
  exists q'. split.
  - rewrite E'. rewrite amap_flip_h. reflexivity.
  - intros i j Hi Hj.
    assert (Hrows : (0 < rows bgr)%nat) by apply Hv.
    destruct (lab_channel_shape rgb2lab_px bgr Hv) as (SL & Sa & Sb).
    destruct (lab_channels_flip_h bgr) as (EL & Ea & Eb).
    rewrite (Hpt' i j Hi Hj), (Hpt i (cols bgr - 1 - j)%nat) by lia.
    rewrite EL, Ea, Eb, entropy_const_flip_h.
    rewrite !(contrast_flip_h kernel_size (rows bgr) (cols bgr))
      by assumption.
    unfold curvature.
    rewrite (laplacian4_flip_h (rows bgr) (cols bgr)) by assumption.
    reflexivity.
Qed.

End Mirror.

(** * Concrete instances of the further properties *)

Lemma valid_row3 : valid_image row3.
Proof.
  unfold valid_image, row3, black, gray128, white, uint8_pixel, uint8. simpl.
  repeat split; repeat constructor; unfold chan0, chan1, chan2; simpl; lia.
Qed.

Lemma decoded_disk_with (img : ndarray pixel) :
  valid_image img -> decoded_disk (disk_with img).
Proof.
  intros Hv path x. unfold disk_with.
  destruct (String.eqb path "image.png"); [|discriminate].
  intros E. inversion E; subst x. exact Hv.
Qed.

Lemma call_returns_iff_witness :
  decoded_disk (disk_with checker2x2) /\
  ((exists r : ndarray R * ndarray pixel,
      compute_aesthetic_charge rgb2lab_D65 (disk_with checker2x2) "image.png"
        3 default_weights = inr r)
   <->
   (exists bgr, disk_with checker2x2 "image.png" = Some bgr) /\ (0 < 3)%Z /\
   length default_weights = 5%nat).
Proof.
  split; [exact (decoded_disk_with checker2x2 valid_checker2x2)|].
  exact (call_returns_iff rgb2lab_D65 (disk_with checker2x2) "image.png" 3
           default_weights (decoded_disk_with checker2x2 valid_checker2x2)).
Defined.

Lemma failure_cases_witness :
  compute_aesthetic_charge rgb2lab_D65 (disk_with checker2x2) "image.png" 3
    [1; 2; 3] = inl (Raise "ValueError"
                       "not enough values to unpack (expected 5, got 3)") /\
  let e :=
    Raise "ValueError" "not enough values to unpack (expected 5, got 3)" in
  let readable :=
    exists bgr, disk_with checker2x2 "image.png" = Some bgr /\
                is_empty bgr = false in
  (~ readable /\ e = Raise "cv2.error" cvtColor_assert) \/
  (readable /\ (3 < 0)%Z /\
   e = Raise "ValueError" "negative dimensions are not allowed") \/
  (readable /\ 3%Z = 0%Z /\ e = Raise "cv2.error" filter2D_assert) \/
  (readable /\ (0 < 3)%Z /\ (length [1; 2; 3] < 5)%nat /\
   e = Raise "ValueError"
         (String.append "not enough values to unpack (expected 5, got "
            (String.append (decimal (length [1; 2; 3])) ")"))) \/
  (readable /\ (0 < 3)%Z /\ (5 < length [1; 2; 3])%nat /\
   e = Raise "ValueError" "too many values to unpack (expected 5)").
Proof.
  assert (E : compute_aesthetic_charge rgb2lab_D65 (disk_with checker2x2)
                "image.png" 3 [1; 2; 3]
              = inl (Raise "ValueError"
                       "not enough values to unpack (expected 5, got 3)")).
  { apply (compute_bad_weights rgb2lab_D65 (disk_with checker2x2) "image.png"
             3 [1; 2; 3] checker2x2 eq_refl eq_refl eq_refl).
    simpl. lia. }
  split; [exact E|].
  exact (failure_cases rgb2lab_D65 (disk_with checker2x2) "image.png" 3
           [1; 2; 3] _ E).
Defined.


Lemma unit_kernel_no_contrast_witness :
  disk_with checker2x2 "image.png" = Some checker2x2 /\
  valid_image checker2x2 /\
  exists q : ndarray R,
    compute_aesthetic_charge rgb2lab_D65 (disk_with checker2x2) "image.png" 1
      [1; 1; 1; 1 / 2; 3 / 10] = inr (q, amap COLOR_BGR2RGB checker2x2) /\
    forall i j : nat, (i < rows checker2x2)%nat -> (j < cols checker2x2)%nat ->
      item 0 q i j
      = 1 / 2 * Rabs (laplacian4 (L_of rgb2lab_D65 checker2x2) i j)
        + 3 / 10 * entropy_const checker2x2.
Proof.
  split; [reflexivity|]. split; [exact valid_checker2x2|].
  exact (unit_kernel_no_contrast rgb2lab_D65 (disk_with checker2x2)
           "image.png" 1 1 1 (1 / 2) (3 / 10) checker2x2
           eq_refl valid_checker2x2).
Defined.

Lemma histogram_is_distribution_witness :
  valid_image checker2x2 /\
  let hist := calcHist (amap COLOR_BGR2GRAY checker2x2) in
  length hist = 256%nat /\
  list_sum hist = (rows checker2x2 * cols checker2x2)%nat /\
  (0 < list_sum hist)%nat /\
  np_sum (map (fun h => h / np_sum (map INR hist)) (map INR hist)) = 1.
Proof.
  split; [exact valid_checker2x2|].
  exact (histogram_is_distribution checker2x2 valid_checker2x2).
Defined.

Lemma entropy_ignores_arrangement_witness :
  Permutation (concat checker2x2) (concat (flip_h checker2x2)) /\
  entropy_const checker2x2 = entropy_const (flip_h checker2x2).
Proof.
  assert (Hp : Permutation (concat checker2x2) (concat (flip_h checker2x2)))
    by (apply Permutation_sym, concat_flip_h_perm).
  split; [exact Hp|].
  exact (entropy_ignores_arrangement checker2x2 (flip_h checker2x2) Hp).
Defined.

Lemma interior_pixels_plain_witness :
  disk_with flat4x4 "image.png" = Some flat4x4 /\
  valid_image flat4x4 /\ (0 < 3)%Z /\
  let k := Z.to_nat 3 in
  (Nat.max (k / 2) 1 <= 1)%nat /\
  (1 + Nat.max (k - k / 2) 2 <= rows flat4x4)%nat /\
  (Nat.max (k / 2) 1 <= 2)%nat /\
  (2 + Nat.max (k - k / 2) 2 <= cols flat4x4)%nat /\
  exists q : ndarray R,
    compute_aesthetic_charge rgb2lab_D65 (disk_with flat4x4) "image.png" 3
      [1; 1; 1; 1 / 2; 3 / 10] = inr (q, amap COLOR_BGR2RGB flat4x4) /\
    let mean := fun x : ndarray R =>
      sum_upto k (fun u => sum_upto k (fun v =>
        item 0 x (1 + u - k / 2) (2 + v - k / 2))) / INR (k * k) in
    let lap := fun x : ndarray R =>
      item 0 x (1 - 1) 2 + item 0 x 1 (2 - 1) + item 0 x 1 (2 + 1)
      + item 0 x (1 + 1) 2 - 4 * item 0 x 1 2 in
    let L := L_of rgb2lab_D65 flat4x4 in
    let a := a_of rgb2lab_D65 flat4x4 in
    let b := b_of rgb2lab_D65 flat4x4 in
    item 0 q 1 2 =
    1 * Rabs (item 0 L 1 2 - mean L)
    + 1 * Rabs (item 0 a 1 2 - mean a)
    + 1 * Rabs (item 0 b 1 2 - mean b)
    + 1 / 2 * Rabs (lap L)
    + 3 / 10 * entropy_const flat4x4.
Proof.
  split; [reflexivity|]. split; [exact valid_flat4x4|]. split; [lia|].
  cbv zeta.
  split; [simpl; lia|]. split; [simpl; lia|].
  split; [simpl; lia|]. split; [simpl; lia|].
  exact (interior_pixels_plain rgb2lab_D65 (disk_with flat4x4) "image.png" 3
           1 1 1 (1 / 2) (3 / 10) flat4x4 1 2 eq_refl valid_flat4x4 eq_refl
           ltac:(simpl; lia) ltac:(simpl; lia) ltac:(simpl; lia)
           ltac:(simpl; lia)).
Defined.

Lemma curvature_on_border_witness :
  disk_with flat4x4 "image.png" = Some flat4x4 /\
  valid_image flat4x4 /\ (0 < 3)%Z /\
  (2 <= rows flat4x4)%nat /\ (2 <= cols flat4x4)%nat /\
  exists q : ndarray R,
    compute_aesthetic_charge rgb2lab_D65 (disk_with flat4x4) "image.png" 3
      [0; 0; 0; 1; 0] = inr (q, amap COLOR_BGR2RGB flat4x4) /\
    let L := L_of rgb2lab_D65 flat4x4 in
    let h := rows flat4x4 in
    let w := cols flat4x4 in
    (forall j : nat, (1 <= j)%nat -> (j + 2 <= w)%nat ->
       item 0 q 0 j
       = Rabs (2 * item 0 L 1 j + item 0 L 0 (j - 1) + item 0 L 0 (j + 1)
               - 4 * item 0 L 0 j)) /\
    item 0 q 0 0
    = Rabs (2 * item 0 L 1 0 + 2 * item 0 L 0 1 - 4 * item 0 L 0 0) /\
    item 0 q (h - 1) (w - 1)
    = Rabs (2 * item 0 L (h - 2) (w - 1) + 2 * item 0 L (h - 1) (w - 2)
            - 4 * item 0 L (h - 1) (w - 1)).
Proof.
  split; [reflexivity|]. split; [exact valid_flat4x4|]. split; [lia|].
  split; [simpl; lia|]. split; [simpl; lia|].
  exact (curvature_on_border rgb2lab_D65 (disk_with flat4x4) "image.png" 3
           flat4x4 eq_refl valid_flat4x4 eq_refl
           ltac:(simpl; lia) ltac:(simpl; lia)).
Defined.

Lemma curvature_single_row_witness :
  disk_with row3 "image.png" = Some row3 /\
  valid_image row3 /\ (0 < 5)%Z /\ rows row3 = 1%nat /\
  exists q : ndarray R,
    compute_aesthetic_charge rgb2lab_D65 (disk_with row3) "image.png" 5
      [0; 0; 0; 1; 0] = inr (q, amap COLOR_BGR2RGB row3) /\
    forall j : nat, (1 <= j)%nat -> (j + 2 <= cols row3)%nat ->
      let L := L_of rgb2lab_D65 row3 in
      item 0 q 0 j
      = Rabs (item 0 L 0 (j - 1) + item 0 L 0 (j + 1) - 2 * item 0 L 0 j).
Proof.
  split; [reflexivity|]. split; [exact valid_row3|]. split; [lia|].
  split; [reflexivity|].
  exact (curvature_single_row rgb2lab_D65 (disk_with row3) "image.png" 5
           row3 eq_refl valid_row3 eq_refl eq_refl).
Defined.

Lemma box_kernel_normalised_witness :
  (0 < 4)%Z /\
  exists ones : ndarray R,
    np_ones 4 = inr ones /\
    let kernel := np_div ones (IZR (4 ^ 2)) in
    let k := Z.to_nat 4 in
    shape kernel = (k, k) /\
    (forall u v : nat, (u < k)%nat -> (v < k)%nat ->
       item 0 kernel u v = 1 / IZR (4 ^ 2)) /\
    np_sum (map np_sum kernel) = 1.
Proof.
  split; [lia|]. exact (box_kernel_normalised 4 eq_refl).
Defined.


Lemma returned_rgb_round_trip_witness :
  exists (q : ndarray R) (rgb : ndarray pixel),
    disk_with checker2x2 "image.png" = Some checker2x2 /\
    valid_image checker2x2 /\
    compute_aesthetic_charge rgb2lab_D65 (disk_with checker2x2) "image.png" 3
      default_weights = inr (q, rgb) /\
    shape rgb = shape checker2x2 /\ shape rgb = shape q /\
    amap COLOR_BGR2RGB rgb = checker2x2 /\
    forall i j : nat, (i < rows checker2x2)%nat -> (j < cols checker2x2)%nat ->
      let p := item (0, 0, 0)%Z checker2x2 i j in
      item (0, 0, 0)%Z rgb i j = (chan2 p, chan1 p, chan0 p).
Proof.
  destruct (compute_pointwise rgb2lab_D65 (disk_with checker2x2) "image.png" 3
              1 1 1 (1 / 2) (3 / 10) checker2x2 eq_refl valid_checker2x2
              eq_refl) as (q & E & _).
  exists q, (amap COLOR_BGR2RGB checker2x2).
  split; [reflexivity|]. split; [exact valid_checker2x2|].
  split; [exact E|].
  exact (returned_rgb_round_trip rgb2lab_D65 (disk_with checker2x2)
           "image.png" 3 default_weights checker2x2 q
           (amap COLOR_BGR2RGB checker2x2) eq_refl valid_checker2x2 E).
Defined.

Lemma mirror_equivariance_witness :
  exists (q : ndarray R) (rgb : ndarray pixel),
    disk_with row3 "image.png" = Some row3 /\
    disk_with (flip_h row3) "image.png" = Some (flip_h row3) /\
    valid_image row3 /\ Z.odd 3 = true /\
    compute_aesthetic_charge rgb2lab_D65 (disk_with row3) "image.png" 3
      default_weights = inr (q, rgb) /\
    exists q' : ndarray R,
      compute_aesthetic_charge rgb2lab_D65 (disk_with (flip_h row3))
        "image.png" 3 default_weights = inr (q', flip_h rgb) /\
      forall i j : nat, (i < rows row3)%nat -> (j < cols row3)%nat ->
        item 0 q' i j = item 0 q i (cols row3 - 1 - j).
Proof.
  destruct (compute_pointwise rgb2lab_D65 (disk_with row3) "image.png" 3
              1 1 1 (1 / 2) (3 / 10) row3 eq_refl valid_row3 eq_refl)
    as (q & E & _).
  exists q, (amap COLOR_BGR2RGB row3).
  split; [reflexivity|]. split; [reflexivity|]. split; [exact valid_row3|].
  split; [reflexivity|]. split; [exact E|].
  exact (mirror_equivariance rgb2lab_D65 (disk_with row3)
           (disk_with (flip_h row3)) "image.png" 3 default_weights row3 q
           (amap COLOR_BGR2RGB row3) eq_refl eq_refl valid_row3 eq_refl E).
Defined.

(** ** An upper bound on the entropy *)

Lemma ln_le_minus1 (y : R) : 0 < y -> ln y <= y - 1.
Proof.
  intros Hy. assert (H := exp_ineq1_le (ln y)).
  rewrite (exp_ln y Hy) in H. lra.
Qed.

Lemma ln_le_mono (x y : R) : 0 < x -> x <= y -> ln x <= ln y.
Proof.
  intros Hx [Hlt|Heq].
  - left. apply ln_increasing; assumption.
  - subst y. right. reflexivity.
Qed.

Lemma rne_lower (t : R) : t - 1 / 2 <= IZR (rne t).
Proof.
  destruct (Zfloor_bound t) as [Hlo Hhi]. unfold rne.
  destruct (Rlt_dec (t - IZR (Zfloor t)) (1 / 2)) as [H1|H1]; [lra|].
  destruct (Rlt_dec (1 / 2) (t - IZR (Zfloor t))) as [H2|H2].
  - rewrite plus_IZR. lra.
  - destruct (Z.even (Zfloor t)); [lra|]. rewrite plus_IZR. lra.
Qed.

(** Rounding to 24 bits loses at most the fraction [2^-24] of the value. *)
Lemma round_pos_lower (x : R) :
  0 < x -> x * (1 - powerRZ 2 (-24)) <= round_pos x.
Proof.
  intros Hx. destruct (mag2_spec x Hx) as [Mlo _].
  unfold round_pos. set (e := mag2 x) in *.
  assert (Hq := pow2_pos (e - 23)).
  assert (Hc := pow2_cancel (e - 23)).
  assert (Hl := rne_lower (x * powerRZ 2 (- (e - 23)))).
  assert (E : powerRZ 2 (e - 23) = 2 * (powerRZ 2 e * powerRZ 2 (-24))).
  { rewrite <- pow2_add. replace (e - 23)%Z with (1 + (e + -24))%Z by lia.
    rewrite pow2_add. simpl (powerRZ 2 1). lra. }
  assert (Hp24 : 0 < powerRZ 2 (-24)) by apply pow2_pos.
  apply Rle_trans with
    ((x * powerRZ 2 (- (e - 23)) - 1 / 2) * powerRZ 2 (e - 23)).
  - rewrite Rmult_minus_distr_r, Rmult_assoc, Hc, E. nra.
  - apply Rmult_le_compat_r; lra.
Qed.

Lemma fadd32_floor_lower (p : R) :
  0 <= p -> p * (1 - powerRZ 2 (-24)) <= fadd32 p floor32.
Proof.
  intros Hp. destruct floor32_bounds as [Hf _].
  unfold fadd32. rewrite round_float32_pos by lra.
  assert (H := round_pos_lower (p + floor32) ltac:(lra)).
  assert (H24 : 0 < 1 - powerRZ 2 (-24)) by (simpl; lra).
  nra.
Qed.

Lemma np_sum_le (f g : nat -> R) (l : list nat) :
  (forall c, In c l -> f c <= g c) ->
  np_sum (map f l) <= np_sum (map g l).
Proof.
  induction l as [|x l IH]; simpl; intros H; [lra|].
  assert (Hx := H x (or_introl eq_refl)).
  assert (Hl := IH (fun c Hc => H c (or_intror Hc))). lra.
Qed.

Lemma np_sum_neg_scale (g : nat -> R) (s : R) (l : list nat) :
  np_sum (map (fun c => - (g c * s)) l) = - np_sum (map g l) * s.
Proof. induction l as [|c l IH]; simpl; [lra|]. rewrite IH. lra. Qed.

(** One summand against its share of [ln n]. *)
Lemma entropy_term_bound (n p : R) :
  0 < n -> 0 <= p <= 1 ->
  - (p * ln (fadd32 p floor32))
  <= (ln n - 1 - ln (1 - powerRZ 2 (-24))) * p + / n.
Proof.
  intros Hn [Hp0 Hp1].
  assert (Hin := Rinv_0_lt_compat n Hn).
  destruct Hp0 as [Hp0|<-]; [|lra].
  assert (H24 : 0 < 1 - powerRZ 2 (-24)) by (simpl; lra).
  assert (Hr := fadd32_floor_lower p ltac:(lra)).
  assert (Hpos : 0 < p * (1 - powerRZ 2 (-24))) by nra.
  assert (L1 := ln_le_mono _ _ Hpos Hr).
  rewrite ln_mult in L1 by assumption.
  assert (Hnp : 0 < / (n * p)) by (apply Rinv_0_lt_compat; nra).
  assert (L2 := ln_le_minus1 (/ (n * p)) Hnp).
  rewrite ln_Rinv, ln_mult in L2 by (try assumption; nra).
  assert (E : p * (/ (n * p) - 1) = / n - p) by (field; lra).
  nra.
Qed.

Lemma entropy_of_hist_upper (counts : list nat) :
  (0 < length counts)%nat -> (0 < list_sum counts)%nat ->
  entropy_of_hist counts
  <= (ln (INR (length counts)) - ln (1 - powerRZ 2 (-24))) / ln 2.
Proof.
  intros Hlen Hpos. rewrite entropy_of_hist_unfold.
  set (N := INR (list_sum counts)). set (n := INR (length counts)).
  assert (HN : 0 < N) by (apply lt_0_INR; exact Hpos).
  assert (Hn : 0 < n) by (apply lt_0_INR; exact Hlen).
  assert (H2 := ln2_pos).
  set (A := ln n - 1 - ln (1 - powerRZ 2 (-24))).
  assert (Hterm : np_sum (map (fun c => - (plogp (INR c / N) * ln 2)) counts)
                  <= np_sum (map (fun c => A * (INR c / N) + / n) counts)).
  { apply np_sum_le. intros c Hc. unfold plogp, log2.
    replace (INR c / N * (ln (fadd32 (INR c / N) floor32) / ln 2) * ln 2)
      with (INR c / N * ln (fadd32 (INR c / N) floor32)) by (field; lra).
    apply entropy_term_bound; [exact Hn|].
    apply bin_probability; assumption. }
  rewrite np_sum_affine in Hterm. fold n in Hterm.
  assert (Hp1 : np_sum (map (fun c => INR c / N) counts) = 1).
  { rewrite <- (map_map INR (fun h => h / N)), np_sum_div, np_sum_INR.
    fold N. field. lra. }
  rewrite Hp1 in Hterm.
  assert (Hneg : np_sum (map (fun c => - (plogp (INR c / N) * ln 2)) counts)
                 = - np_sum (map (fun c => plogp (INR c / N)) counts) * ln 2).
  { apply np_sum_neg_scale. }
  rewrite Hneg in Hterm.
  apply Rmult_le_reg_r with (r := ln 2); [exact H2|].
  replace ((ln n - ln (1 - powerRZ 2 (-24))) / ln 2 * ln 2)
    with (ln n - ln (1 - powerRZ 2 (-24))) by (field; lra).
  replace (n * / n) with 1 in Hterm by (field; lra).
  unfold A in Hterm. fold N. lra.
Qed.

Lemma rounding_slack : - ln (1 - powerRZ 2 (-24)) / ln 2 <= 1 / 1000.
Proof.
  assert (H2 := ln_lt_2).
  assert (Hd : 0 < 1 - powerRZ 2 (-24)) by (simpl; lra).
  assert (Hi : 0 < / (1 - powerRZ 2 (-24))) by (apply Rinv_0_lt_compat; lra).
  assert (L := ln_le_minus1 _ Hi). rewrite ln_Rinv in L by exact Hd.
  assert (B : / (1 - powerRZ 2 (-24)) - 1 <= 1 / 4000).
  { apply Rplus_le_reg_r with (r := 1). ring_simplify.
    rewrite <- (Rinv_inv (1 / 4000 + 1)).
    apply Rinv_le_contravar; [lra|]. simpl. lra. }
  apply Rmult_le_reg_r with (r := ln 2); [lra|].
  replace (- ln (1 - powerRZ 2 (-24)) / ln 2 * ln 2)
    with (- ln (1 - powerRZ 2 (-24))) by (field; lra).
  nra.
Qed.

Lemma ln_256 : ln (INR 256) = 8 * ln 2.
Proof.
  rewrite INR_IZR_INZ. change (Z.of_nat 256) with 256%Z.
  replace (IZR 256) with (2 ^ 8) by (simpl; lra).
  rewrite ln_pow by lra. simpl. lra.
Qed.

Lemma entropy_bound_aux (bgr : ndarray pixel) :
  valid_image bgr -> entropy_const bgr <= 8 + 1 / 1000.
Proof.
  intros Hv. destruct (calcHist_total bgr Hv) as [_ Hpos].
  unfold entropy_const.
  assert (Hlen := calcHist_length (amap COLOR_BGR2GRAY bgr)).
  assert (Hu := entropy_of_hist_upper (calcHist (amap COLOR_BGR2GRAY bgr))
                  ltac:(lia) Hpos).
  rewrite Hlen, ln_256 in Hu.
  assert (Hs := rounding_slack). assert (H2 := ln2_pos).
  replace ((8 * ln 2 - ln (1 - powerRZ 2 (-24))) / ln 2)
    with (8 + - ln (1 - powerRZ 2 (-24)) / ln 2) in Hu by (field; lra).
  lra.
Qed.

(** X14.  The entropy of a decoded image never exceeds eight bits, up to the
    slack of the one binary32 rounding: [0 <= H <= 8 + 1/1000]. *)
Theorem entropy_at_most_eight_bits (bgr : ndarray pixel) :
  valid_image bgr -> 0 <= entropy_const bgr <= 8 + 1 / 1000.
Proof.
  intros Hv. split.
  - apply entropy_nonneg. apply calcHist_total. exact Hv.
  - apply entropy_bound_aux. exact Hv.
Qed.

(** ** Bounds on the maps and on the field *)







Lemma entropy_at_most_eight_bits_witness :
  valid_image checker2x2 /\ 0 <= entropy_const checker2x2 <= 8 + 1 / 1000.
Proof.
  split; [exact valid_checker2x2|].
  exact (entropy_at_most_eight_bits checker2x2 valid_checker2x2).
Defined.



